(** * generate_headers.py: C header generation from Rust FFI signatures

    A shallow embedding of [packages/micropdf/scripts/generate_headers.py]
    and the properties of its conversion pipeline: type conversion,
    signature extraction, signature parsing, module classification and
    header rendering.

    Python [str] values are modelled as [string]; a character is a code
    point below 256.  Integers that the script lets go negative (bracket
    depths) are [Z]; list indices are [nat]. *)

From Stdlib Require Import String Ascii List ZArith NArith Bool Arith Lia.
From Stdlib Require Import Permutation DecimalString.
Import ListNotations.

Open Scope string_scope.
Open Scope bool_scope.

(** ** Python string builtins used by the script *)

Module PyStr.

(** [str.isspace] on one character (also the class [\s] of [re]). *)
Definition isspace (c : ascii) : bool :=
  let n := N_of_ascii c in
  (((9 <=? n) && (n <=? 13)) || ((28 <=? n) && (n <=? 32))
   || (n =? 133) || (n =? 160))%N.

(** The class [\w] of [re] on a [str] pattern: alphanumerics and [_]. *)
Definition isword (c : ascii) : bool :=
  let n := N_of_ascii c in
  (((48 <=? n) && (n <=? 57)) || ((65 <=? n) && (n <=? 90)) || (n =? 95)
   || ((97 <=? n) && (n <=? 122))
   || (n =? 170) || (n =? 178) || (n =? 179) || (n =? 181) || (n =? 185)
   || (n =? 186) || ((188 <=? n) && (n <=? 190))
   || ((192 <=? n) && (n <=? 214)) || ((216 <=? n) && (n <=? 246))
   || (248 <=? n))%N.

Fixpoint lstrip (s : string) : string :=
  match s with
  | "" => ""
  | String c s' => if isspace c then lstrip s' else s
  end.

Fixpoint rstrip (s : string) : string :=
  match s with
  | "" => ""
  | String c s' =>
      match rstrip s' with
      | "" => if isspace c then "" else String c ""
      | r => String c r
      end
  end.

(** [s.strip()] *)
Definition strip (s : string) : string := rstrip (lstrip s).

(** [s.startswith(p)] *)
Definition startswith (p s : string) : bool := prefix p s.

(** [sub in s] *)
Fixpoint contains (sub s : string) : bool :=
  prefix sub s
  || match s with
     | "" => false
     | String _ s' => contains sub s'
     end.

(** [s.endswith(suf)] *)
Fixpoint endswith (suf s : string) : bool :=
  (s =? suf)
  || match s with
     | "" => false
     | String _ s' => endswith suf s'
     end.

(** [s[n:]] *)
Fixpoint drop (n : nat) (s : string) : string :=
  match n, s with
  | O, _ => s
  | S _, "" => ""
  | S n', String _ s' => drop n' s'
  end.

(** [s.count(c)] for a one-character [c] *)
Fixpoint count (c : ascii) (s : string) : Z :=
  match s with
  | "" => 0
  | String d s' => ((if Ascii.eqb d c then 1 else 0) + count c s')%Z
  end.

(** [s.split('::')]: occurrences of the separator are found from the
    left and do not overlap. *)
Definition cons_seg (c : ascii) (segs : list string) : list string :=
  match segs with
  | seg :: segs' => String c seg :: segs'
  | [] => [String c ""]
  end.

Fixpoint split_path (s : string) : list string :=
  match s with
  | "" => [""]
  | String c rest =>
      match rest with
      | String d rest' =>
          if Ascii.eqb c ":" && Ascii.eqb d ":" then "" :: split_path rest'
          else cons_seg c (split_path rest)
      | "" => cons_seg c (split_path rest)
      end
  end.

(** [s.split('::')[-1]] *)
Definition last_segment (s : string) : string := last (split_path s) "".

(** [s.split(':', 1)] when [':' in s]: the text before and after the
    first colon. *)
Fixpoint split_colon (s : string) : option (string * string) :=
  match s with
  | "" => None
  | String c s' =>
      if Ascii.eqb c ":" then Some ("", s')
      else match split_colon s' with
           | Some (l, r) => Some (String c l, r)
           | None => None
           end
  end.

(** The longest prefix of [s] whose characters satisfy [p], and the rest. *)
Fixpoint take_while (p : ascii -> bool) (s : string) : string :=
  match s with
  | "" => ""
  | String c s' => if p c then String c (take_while p s') else ""
  end.

Fixpoint drop_while (p : ascii -> bool) (s : string) : string :=
  match s with
  | "" => ""
  | String c s' => if p c then drop_while p s' else s
  end.

(** [sep.join(l)] *)
Definition join (sep : string) (l : list string) : string := String.concat sep l.

End PyStr.

Import PyStr.

(** ** Type conversion *)

(** The table [TYPE_MAP], in the order of the source. *)
Definition TYPE_MAP : list (string * string) :=
  [ ("i32", "int32_t"); ("u32", "uint32_t"); ("i64", "int64_t");
    ("u64", "uint64_t"); ("f32", "float"); ("f64", "double");
    ("bool", "bool"); ("usize", "size_t"); ("isize", "intptr_t");
    ("()", "void"); ("c_char", "char"); ("c_int", "int");
    ("c_void", "void"); ("c_float", "float"); ("c_double", "double") ].

(** [d[k]] guarded by [k in d], on a dict literal. *)
Fixpoint dict_get (d : list (string * string)) (k : string) : option string :=
  match d with
  | [] => None
  | (k', v) :: d' => if k =? k' then Some v else dict_get d' k
  end.

(** The body of [convert_rust_type_to_c]; [self] is the function called at
    the two recursive call sites. *)
Definition convert_body (self : string -> string) (rust_type : string) : string :=
  let rust_type := strip rust_type in
  match dict_get TYPE_MAP rust_type with
  | Some c => c
  | None =>
      if startswith "*const " rust_type then
        let inner := strip (drop 7 rust_type) in
        let inner :=
          if contains "::" inner && negb (startswith "*" inner)
          then last_segment inner else inner in
        let inner := if inner =? "c_char" then "char" else inner in
        let inner_c := self inner in
        if inner_c =? "char" then "const char *"
        else inner_c ++ " const *"
      else if startswith "*mut " rust_type then
        let inner := strip (drop 5 rust_type) in
        let inner_c := self inner in
        inner_c ++ " *"
      else if contains "Handle" rust_type then "int32_t"
      else if startswith "fz_" rust_type || startswith "pdf_" rust_type
      then rust_type
      else if contains "::" rust_type then last_segment rust_type
      else rust_type
  end.

(** The recursion of the source is on ever shorter strings; [fuel] bounds
    its depth, and [convert_rust_type_to_c_unfold] below shows that the
    bound chosen in [convert_rust_type_to_c] is never reached. *)
Fixpoint convert_fuel (fuel : nat) (rust_type : string) : string :=
  match fuel with
  | O => rust_type
  | S fuel' => convert_body (convert_fuel fuel') rust_type
  end.

Definition convert_rust_type_to_c (rust_type : string) : string :=
  convert_fuel (S (String.length rust_type)) rust_type.

(** ** Signature extraction *)

(** The [while] loop of [extract_function_signature].  [rest] holds the
    lines from index [idx] on, so the loop condition [idx < len(lines)]
    fails exactly when [rest] is empty; both [break]s leave [idx] as it
    is. *)
Fixpoint extract_loop (rest : list string) (idx : nat) (sig_lines : list string)
    (paren_depth : Z) (found_fn : bool) : list string * nat :=
  match rest with
  | [] => (sig_lines, idx)
  | l :: rest' =>
      let line := strip l in
      if (line =? "") || startswith "//" line then
        extract_loop rest' (S idx) sig_lines paren_depth found_fn
      else
        let found_fn :=
          found_fn
          || (contains "pub" line && contains "extern" line
              && contains "fn " line) in
        if found_fn then
          let sig_lines := (sig_lines ++ [line])%list in
          let paren_depth :=
            (paren_depth + (count "(" line - count ")" line))%Z in
          if (paren_depth =? 0)%Z
             && (contains "{" line || endswith ";" line)
          then (sig_lines, idx)
          else if found_fn && (paren_depth =? 0)%Z
                  && negb (contains "->" line)
          then (sig_lines, idx)
          else extract_loop rest' (S idx) sig_lines paren_depth found_fn
        else extract_loop rest' (S idx) sig_lines paren_depth found_fn
  end.

(** The lines gathered into the signature, and the returned index. *)
Definition extract_sig_lines (lines : list string) (start_idx : nat)
  : list string * nat :=
  extract_loop (skipn start_idx lines) start_idx [] 0%Z false.

Definition extract_function_signature (lines : list string) (start_idx : nat)
  : string * nat :=
  let '(sig_lines, idx) := extract_sig_lines lines start_idx in
  (join " " sig_lines, idx).

(** ** The three regular expressions of the parser *)

Module Re.

(** [fn\s+(\w+)] at the start of [s]: group 1.  The classes [\s] and
    [\w] are disjoint, so the greedy runs are the only way to match. *)
Definition fn_name_at (s : string) : option string :=
  if prefix "fn" s then
    let r := drop 2 s in
    let r' := drop_while isspace r in
    if (String.length r' <? String.length r)%nat then
      let w := take_while isword r' in
      if w =? "" then None else Some w
    else None
  else None.

(** [re.search(r'fn\s+(\w+)', s)]: the leftmost match. *)
Fixpoint search_fn_name (s : string) : option string :=
  match fn_name_at s with
  | Some w => Some w
  | None =>
      match s with
      | "" => None
      | String _ s' => search_fn_name s'
      end
  end.

(** [\s*(?:->|{|;)] at the start of [s]. *)
Definition params_tail (s : string) : bool :=
  let r := drop_while isspace s in
  prefix "->" r || prefix "{" r || prefix ";" r.

(** [(.*?)\)\s*(?:->|{|;)] at the start of [s], with [re.DOTALL]: the
    shortest group 1. *)
Fixpoint params_group (s : string) : option string :=
  match s with
  | "" => None
  | String c s' =>
      if Ascii.eqb c ")" && params_tail s' then Some ""
      else option_map (String c) (params_group s')
  end.

(** [re.search(r'\((.*?)\)\s*(?:->|{|;)', s, re.DOTALL)] *)
Fixpoint search_params (s : string) : option string :=
  match s with
  | "" => None
  | String c s' =>
      match (if Ascii.eqb c "(" then params_group s' else None) with
      | Some g => Some g
      | None => search_params s'
      end
  end.

Definition not_brace_semi (c : ascii) : bool :=
  negb (Ascii.eqb c "{" || Ascii.eqb c ";").

(** [\s*([^{;]+)] at the start of [s]: [\s*] takes as much white space
    as leaves a non-empty group. *)
Fixpoint ret_group (s : string) : option string :=
  match s with
  | "" => None
  | String c s' =>
      if isspace c then
        match ret_group s' with
        | Some g => Some g
        | None => Some (take_while not_brace_semi s)
        end
      else
        let g := take_while not_brace_semi s in
        if g =? "" then None else Some g
  end.

(** [re.search(r'->\s*([^{;]+)', s)] *)
Fixpoint search_ret (s : string) : option string :=
  match (if prefix "->" s then ret_group (drop 2 s) else None) with
  | Some g => Some g
  | None =>
      match s with
      | "" => None
      | String _ s' => search_ret s'
      end
  end.

End Re.

(** ** Signature parsing *)

(** The dict returned by [parse_rust_ffi_function]. *)
Record FuncInfo : Type := mkFuncInfo {
  name : string;
  params : string;
  return_ : string;
  declaration : string
}.

Definition is_open (c : ascii) : bool :=
  Ascii.eqb c "<" || Ascii.eqb c "(" || Ascii.eqb c "[".

Definition is_close (c : ascii) : bool :=
  Ascii.eqb c ">" || Ascii.eqb c ")" || Ascii.eqb c "]".

(** The loop [for char in params_str + ','] that splits on commas at
    depth zero. *)
Fixpoint split_params_loop (chars : string) (params : list string)
    (current : string) (depth : Z) : list string :=
  match chars with
  | "" => params
  | String ch rest =>
      if is_open ch then
        split_params_loop rest params (current ++ String ch "") (depth + 1)%Z
      else if is_close ch then
        split_params_loop rest params (current ++ String ch "") (depth - 1)%Z
      else if Ascii.eqb ch "," && (depth =? 0)%Z then
        split_params_loop rest (params ++ [strip current])%list "" depth
      else
        split_params_loop rest params (current ++ String ch "") depth
  end.

Definition split_params (params_str : string) : list string :=
  split_params_loop (params_str ++ ",") [] "" 0%Z.

(** One round of the loop [for param in params]: the converted type and
    the name of a well-formed parameter, nothing for one that is
    skipped. *)
Definition convert_param (param : string) : option (string * string) :=
  if param =? "" then None
  else
    match split_colon param with
    | Some (l, r) =>
        let param_name := strip l in
        let param_type := strip r in
        let c_type := convert_rust_type_to_c param_type in
        Some (c_type, param_name)
    | None => None
    end.

Fixpoint filter_map {A B : Type} (f : A -> option B) (l : list A) : list B :=
  match l with
  | [] => []
  | x :: l' =>
      match f x with
      | Some y => y :: filter_map f l'
      | None => filter_map f l'
      end
  end.

(** The parameters of a parameter string, as (C type, name). *)
Definition c_param_pairs (params_str : string) : list (string * string) :=
  if params_str =? "" then []
  else filter_map convert_param (split_params params_str).

(** The list [c_params]. *)
Definition c_params_of (params_str : string) : list string :=
  map (fun p => fst p ++ " " ++ snd p) (c_param_pairs params_str).

Definition parse_rust_ffi_function (rust_sig : string) : option FuncInfo :=
  match Re.search_fn_name rust_sig with
  | None => None
  | Some fn_name =>
      match Re.search_params rust_sig with
      | None => None
      | Some g =>
          let params_str := strip g in
          let ret_type :=
            match Re.search_ret rust_sig with
            | Some r => strip r
            | None => "()"
            end in
          let c_params := c_params_of params_str in
          let c_params_str :=
            match c_params with
            | [] => "void"
            | _ => join ", " c_params
            end in
          let c_ret_type := convert_rust_type_to_c ret_type in
          Some {| name := fn_name;
                  params := c_params_str;
                  return_ := c_ret_type;
                  declaration :=
                    c_ret_type ++ " " ++ fn_name
                    ++ "(" ++ c_params_str ++ ");" |}
      end
  end.

(** ** Extraction of all functions of a file *)

Definition is_marker (line : string) : bool :=
  (line =? "#[unsafe(no_mangle)]") || (line =? "#[no_mangle]").

(** The [while] loop of [extract_ffi_functions] from index [i] on; every
    round moves [i] forward, so [fuel] rounds suffice when [fuel] is the
    number of lines ([ffi_loop_fuel_enough] below). *)
Fixpoint ffi_loop (fuel : nat) (lines : list string) (i : nat)
    (functions : list FuncInfo) : list FuncInfo :=
  match fuel with
  | O => functions
  | S fuel' =>
      match nth_error lines i with
      | None => functions
      | Some l =>
          if is_marker (strip l) then
            let '(rust_sig, next_idx) :=
              extract_function_signature lines (i + 1) in
            let functions :=
              if rust_sig =? "" then functions
              else
                match parse_rust_ffi_function rust_sig with
                | Some func_info => (functions ++ [func_info])%list
                | None => functions
                end in
            ffi_loop fuel' lines (next_idx + 1) functions
          else ffi_loop fuel' lines (i + 1) functions
      end
  end.

(** [extract_ffi_functions] on the lines read from the file. *)
Definition extract_ffi_functions (lines : list string) : list FuncInfo :=
  ffi_loop (List.length lines) lines 0 [].

(** ** Header rendering *)

(** The double quote and the newline, as strings of one character. *)
Definition dq : string := String (ascii_of_nat 34) "".
Definition nl : string := String (ascii_of_nat 10) "".

(** The text made of the given lines, each ended by a newline. *)
Definition text (ls : list string) : string :=
  String.concat "" (map (fun l => l ++ nl) ls).

(** [str(n)] for a length. *)
Definition str_of_nat (n : nat) : string :=
  NilEmpty.string_of_uint (Nat.to_uint n).

(** [sorted(l, key=key)]: a stable sort on string keys, compared as
    Python compares [str], code point by code point. *)
Fixpoint insert_by {A : Type} (key : A -> string) (x : A) (l : list A) : list A :=
  match l with
  | [] => [x]
  | y :: l' =>
      if (key x <=? key y)%string then x :: l
      else y :: insert_by key x l'
  end.

Fixpoint sorted {A : Type} (key : A -> string) (l : list A) : list A :=
  match l with
  | [] => []
  | x :: l' => insert_by key x (sorted key l')
  end.

(** [x in s] for a set or list of strings. *)
Definition mem (x : string) (s : list string) : bool :=
  existsb (String.eqb x) s.

(** The two sets of [main]. *)
Definition fitz_modules : list string :=
  [ "geometry"; "buffer"; "stream"; "output"; "colorspace";
    "pixmap"; "font"; "image"; "path"; "text"; "device";
    "display_list"; "link"; "archive"; "cookie"; "context" ].

Definition pdf_modules : list string :=
  [ "annot"; "form"; "document"; "pdf_object" ].

(** The classification made in the loop of [main] that writes the module
    headers. *)
Definition is_pdf (module : string) (functions : list FuncInfo) : bool :=
  mem module pdf_modules
  || existsb (fun f => startswith "pdf_" (name f)) functions.

Definition subdir_of (module : string) (functions : list FuncInfo) : string :=
  if module =? "enhanced" then "../micropdf"
  else if is_pdf module functions then "pdf" else "fitz".

(** The include lines of [fitz.h] and of [pdf.h], as the two loops of
    [generate_master_headers] append them. *)
Definition fitz_includes (all_modules fitz_modules pdf_modules : list string)
  : list string :=
  flat_map
    (fun module =>
       if module =? "enhanced" then []
       else if mem module fitz_modules
               || negb (existsb (fun _ : nat => mem module pdf_modules) [1])
       then ["#include " ++ dq ++ "mupdf/fitz/" ++ module ++ ".h" ++ dq ++ nl]
       else [])
    (sorted (fun m => m) all_modules).

Definition pdf_includes (all_modules pdf_modules : list string) : list string :=
  flat_map
    (fun module =>
       if mem module pdf_modules
       then ["#include " ++ dq ++ "mupdf/pdf/" ++ module ++ ".h" ++ dq ++ nl]
       else [])
    (sorted (fun m => m) all_modules).

Definition fitz_header (all_modules fitz_modules pdf_modules : list string)
  : string :=
  text [ "// MicroPDF - MuPDF API Compatible C Header";
         "// Master header for fitz (core) functionality";
         "";
         "#ifndef MUPDF_FITZ_H";
         "#define MUPDF_FITZ_H";
         "";
         "#ifdef __cplusplus";
         "extern " ++ dq ++ "C" ++ dq ++ " {";
         "#endif";
         "" ]
  ++ String.concat "" (fitz_includes all_modules fitz_modules pdf_modules)
  ++ text [ "";
            "#ifdef __cplusplus";
            "}";
            "#endif";
            "";
            "#endif /* MUPDF_FITZ_H */" ].

Definition pdf_header (all_modules pdf_modules : list string) : string :=
  text [ "// MicroPDF - MuPDF API Compatible C Header";
         "// Master header for PDF-specific functionality";
         "";
         "#ifndef MUPDF_PDF_H";
         "#define MUPDF_PDF_H";
         "";
         "#include " ++ dq ++ "mupdf/fitz.h" ++ dq;
         "";
         "#ifdef __cplusplus";
         "extern " ++ dq ++ "C" ++ dq ++ " {";
         "#endif";
         "" ]
  ++ String.concat "" (pdf_includes all_modules pdf_modules)
  ++ text [ "";
            "#ifdef __cplusplus";
            "}";
            "#endif";
            "";
            "#endif /* MUPDF_PDF_H */" ].

Definition mupdf_header : string :=
  text [ "// MicroPDF - MuPDF API Compatible C Header";
         "// Single include header for all MuPDF functionality";
         "";
         "#ifndef MUPDF_H";
         "#define MUPDF_H";
         "";
         "#include " ++ dq ++ "mupdf/fitz.h" ++ dq;
         "#include " ++ dq ++ "mupdf/pdf.h" ++ dq;
         "";
         "#endif /* MUPDF_H */" ].

(** [generate_master_headers]: the three files written, as (path, text),
    in the order of the writes. *)
Definition generate_master_headers (include_dir : string)
    (all_modules fitz_modules pdf_modules : list string)
  : list (string * string) :=
  [ (include_dir ++ "/fitz.h", fitz_header all_modules fitz_modules pdf_modules);
    (include_dir ++ "/pdf.h", pdf_header all_modules pdf_modules);
    ("include/mupdf.h", mupdf_header) ].

(** [dict[k] = v]: a key keeps the place of its first insertion. *)
Fixpoint dict_set {V : Type} (d : list (string * V)) (k : string) (v : V)
  : list (string * V) :=
  match d with
  | [] => [(k, v)]
  | (k', v') :: d' =>
      if k =? k' then (k, v) :: d' else (k', v') :: dict_set d' k v
  end.

Fixpoint dict_find {V : Type} (d : list (string * V)) (k : string) : option V :=
  match d with
  | [] => None
  | (k', v) :: d' => if k =? k' then Some v else dict_find d' k
  end.

(** The content of [path] after the writes [ws], made in order. *)
Fixpoint file_content (ws : list (string * string)) (path : string)
  : option string :=
  match ws with
  | [] => None
  | (p, c) :: ws' =>
      match file_content ws' path with
      | Some c' => Some c'
      | None => if path =? p then Some c else None
      end
  end.

Section Rendering.

(** [str.upper] and [str.capitalize]; their results can leave the code
    points below 256, so the rendering is stated for any two
    functions. *)
Variable upper : string -> string.
Variable capitalize : string -> string.

Definition declarations (functions : list FuncInfo) : string :=
  String.concat ""
    (map (fun func => declaration func ++ nl) (sorted name functions)).

Definition generate_module_header (module_name : string)
    (functions : list FuncInfo) (is_pdf : bool) : string :=
  let prefix := if is_pdf then "pdf" else "fitz" in
  let guard :=
    "MUPDF_" ++ upper prefix ++ "_" ++ upper module_name ++ "_H" in
  text [ "// MicroPDF - MuPDF API Compatible C Header";
         "// Auto-generated from Rust FFI - DO NOT EDIT MANUALLY";
         "// Module: " ++ module_name;
         "";
         "#ifndef " ++ guard;
         "#define " ++ guard;
         "";
         "#include <stdint.h>";
         "#include <stddef.h>";
         "#include <stdbool.h>";
         "";
         "#ifdef __cplusplus";
         "extern " ++ dq ++ "C" ++ dq ++ " {";
         "#endif";
         "";
         "// ============================================================================";
         "// " ++ capitalize module_name ++ " Functions ("
           ++ str_of_nat (List.length functions) ++ " total)";
         "// ============================================================================";
         "" ]
  ++ declarations functions
  ++ text [ "";
            "#ifdef __cplusplus";
            "}";
            "#endif";
            "";
            "#endif /* " ++ guard ++ " */" ].

Definition generate_enhanced_header (module_name : string)
    (functions : list FuncInfo) : string :=
  let guard := "MICROPDF_" ++ upper module_name ++ "_H" in
  text [ "// MicroPDF - Enhanced/Extended Functions";
         "// Auto-generated from Rust FFI - DO NOT EDIT MANUALLY";
         "// Module: " ++ module_name;
         "//";
         "// These are MicroPDF-specific extensions beyond MuPDF compatibility.";
         "// All functions are prefixed with mp_* to distinguish from MuPDF functions.";
         "";
         "#ifndef " ++ guard;
         "#define " ++ guard;
         "";
         "#include <stdint.h>";
         "#include <stddef.h>";
         "#include <stdbool.h>";
         "";
         "#ifdef __cplusplus";
         "extern " ++ dq ++ "C" ++ dq ++ " {";
         "#endif";
         "";
         "// ============================================================================";
         "// " ++ capitalize module_name ++ " Functions ("
           ++ str_of_nat (List.length functions) ++ " total)";
         "// ============================================================================";
         "" ]
  ++ declarations functions
  ++ text [ "";
            "#ifdef __cplusplus";
            "}";
            "#endif";
            "";
            "#endif /* " ++ guard ++ " */" ].

(** One round of the loop of [main] over [all_functions.items()]: the
    file written for a module. *)
Definition module_write (include_dir : string)
    (entry : string * list FuncInfo) : string * string :=
  let '(module, functions) := entry in
  let header_content :=
    if module =? "enhanced" then generate_enhanced_header module functions
    else generate_module_header module functions (is_pdf module functions) in
  (include_dir ++ "/" ++ subdir_of module functions ++ "/" ++ module ++ ".h",
   header_content).

(** The first loop of [main]: one module per source file of [src/ffi],
    given as (stem, lines), in the order of discovery. *)
Definition scan_files (top_files : list (string * list string))
    (all_functions : list (string * list FuncInfo))
  : list (string * list FuncInfo) :=
  fold_left
    (fun acc file =>
       let '(module, lines) := file in
       if mem module ["mod"; "safe_helpers"] then acc
       else
         match extract_ffi_functions lines with
         | [] => acc
         | functions => dict_set acc module functions
         end)
    top_files all_functions.

(** The second loop of [main]: one module per subdirectory, given as
    (name, the lines of each of its files), in the order of discovery. *)
Definition scan_dirs (sub_dirs : list (string * list (list string)))
    (all_functions : list (string * list FuncInfo))
  : list (string * list FuncInfo) :=
  fold_left
    (fun acc dir =>
       let '(module, files) := dir in
       match flat_map extract_ffi_functions files with
       | [] => acc
       | functions => dict_set acc module functions
       end)
    sub_dirs all_functions.

(** [main] without its console output: the files written, as
    (path, text), in the order of the writes. *)
Definition main (top_files : list (string * list string))
    (sub_dirs : list (string * list (list string)))
  : list (string * string) :=
  let include_dir := "include/mupdf" in
  let all_functions := scan_dirs sub_dirs (scan_files top_files []) in
  (map (module_write include_dir) all_functions
   ++ generate_master_headers include_dir (map fst all_functions)
        fitz_modules pdf_modules)%list.

End Rendering.

(** * Vocabulary of the statements *)

(** ** Signatures and types *)

(** The signature of the first scenario. *)
Definition open_doc_sig : string :=
  "pub extern " ++ dq ++ "C" ++ dq
  ++ " fn open_doc(path: *const c_char) -> i32".

(** The signature of the second scenario, as the extractor hands it over
    when the body brace stands on the next line. *)
Definition reset_sig : string :=
  "pub extern " ++ dq ++ "C" ++ dq ++ " fn reset()".

(** The two pointer qualifiers of a Rust type, with the text each puts in
    front of the pointee and the text its conversion puts behind it. *)
Inductive qualifier : Type := Const | Mut.


Definition c_suffix (q : qualifier) : string :=
  match q with Const => " const *" | Mut => " *" end.



(** The treatment of the pointee of a pointer to const before the
    recursive call. *)
Definition const_inner (inner : string) : string :=
  let inner :=
    if contains "::" inner && negb (startswith "*" inner)
    then last_segment inner else inner in
  if inner =? "c_char" then "char" else inner.


(** A source file with one exported function whose name has the prefix
    of the document API. *)
Definition pdf_area_lines : list string :=
  [ "#[no_mangle]";
    "pub extern " ++ dq ++ "C" ++ dq ++ " fn pdf_area(r: f32) -> f32 {" ].

(** Two files of [src/ffi] and a subdirectory with two files. *)
Definition ffi_files : list (string * list string) :=
  [ ("buffer", ["#[no_mangle]"; "pub extern fn fz_drop(b: i32) {"]);
    ("annot", ["#[no_mangle]"; "pub extern fn pdf_next(a: i32) -> i32 {"]) ].

Definition ffi_dirs : list (string * list (list string)) :=
  [ ("pdf_object",
     [ ["#[no_mangle]"; "pub extern fn pdf_new() -> i32 {"];
       ["#[no_mangle]"; "pub extern fn pdf_drop(o: i32) {"] ]) ].

(** ** Strings *)

(** A string that does not begin with white space. *)
Definition starts_clean (s : string) : bool :=
  match s with
  | "" => true
  | String c _ => negb (isspace c)
  end.

(** [c in s] for one character. *)
Fixpoint has_char (c : ascii) (s : string) : bool :=
  match s with
  | "" => false
  | String d s' => Ascii.eqb d c || has_char c s'
  end.

(** A string that the conversion leaves as it is: stripped, not a pointer,
    without path separator or handle marker, and not a key of the table
    unless the table maps it to itself. *)
Definition stable (o : string) : Prop :=
  strip o = o
  /\ startswith "*" o = false
  /\ contains "::" o = false
  /\ contains "Handle" o = false
  /\ (dict_get TYPE_MAP o = None \/ dict_get TYPE_MAP o = Some o).

(** ** Parameters *)

(** [all(p(c) for c in s)] *)
Fixpoint all_chars (p : ascii -> bool) (s : string) : bool :=
  match s with
  | "" => true
  | String c s' => p c && all_chars p s'
  end.

(** A character that is neither a bracket nor a comma. *)
Definition plain_char (c : ascii) : bool :=
  negb (is_open c || is_close c || Ascii.eqb c ",").

(** A character that is no bracket. *)
Definition no_bracket (c : ascii) : bool := negb (is_open c || is_close c).

(** The text in front of the name in an exported signature. *)
Definition export_head : string :=
  "pub extern " ++ dq ++ "C" ++ dq ++ " fn ".

(** ** Lines of a source file *)

(** A line that the extractor passes over: blank, or a comment. *)
Definition skipped (line : string) : bool :=
  (line =? "") || startswith "//" line.

(** A line that holds the three tokens of an exported function. *)
Definition declares_fn (line : string) : bool :=
  contains "pub" line && contains "extern" line && contains "fn " line.

(** The number of export markers among the lines. *)
Definition count_markers (lines : list string) : nat :=
  List.length (filter (fun l => is_marker (strip l)) lines).

(** ** Sorting and dicts *)

(** The order of [sorted]: by key. *)
Definition key_le {A : Type} (key : A -> string) (x y : A) : Prop :=
  (key x <=? key y)%string = true.

(** [ordered l]: every element is below all the later ones. *)
Fixpoint ordered {A : Type} (key : A -> string) (l : list A) : Prop :=
  match l with
  | [] => True
  | x :: l' => Forall (key_le key x) l' /\ ordered key l'
  end.

(** An update of the dict by an optional entry, and the keys that a list
    of such updates sets. *)
Definition dict_update {V : Type} (acc : list (string * V))
    (o : option (string * V))
  : list (string * V) :=
  match o with
  | Some (k, v) => dict_set acc k v
  | None => acc
  end.

Definition update_keys {V : Type} (us : list (option (string * V)))
  : list string :=
  flat_map (fun o => match o with Some (k, _) => [k] | None => [] end) us.

(** Two dicts with the same keys and, under every key, the same elements
    in some order. *)
Definition value_perm {T : Type} (o o' : option (list T)) : Prop :=
  match o, o' with
  | Some v, Some v' => Permutation v v'
  | None, None => True
  | _, _ => False
  end.

Definition dict_perm {T : Type} (d d' : list (string * list T)) : Prop :=
  forall k, value_perm (dict_find d k) (dict_find d' k).

Definition entry_perm {T : Type} (o o' : option (string * list T)) : Prop :=
  match o, o' with
  | Some (k, v), Some (k', v') => k = k' /\ Permutation v v'
  | None, None => True
  | _, _ => False
  end.

(** The entry that a source file, and that a directory, adds to the
    dict. *)
Definition file_entry (file : string * list string)
  : option (string * list FuncInfo) :=
  let '(module, lines) := file in
  if mem module ["mod"; "safe_helpers"] then None
  else
    match extract_ffi_functions lines with
    | [] => None
    | functions => Some (module, functions)
    end.

Definition dir_entry (dir : string * list (list string))
  : option (string * list FuncInfo) :=
  let '(module, files) := dir in
  match flat_map extract_ffi_functions files with
  | [] => None
  | functions => Some (module, functions)
  end.

(** A directory read again with its files in another order. *)
Definition same_dir (d d' : string * list (list string)) : Prop :=
  fst d = fst d' /\ Permutation (snd d) (snd d').

(** The dict after both loops of [main]. *)
Definition all_functions_of (top : list (string * list string))
    (subs : list (string * list (list string))) : list (string * list FuncInfo) :=
  scan_dirs subs (scan_files top []).

(** * Properties *)

(** ** Worked signatures *)

(** C1: the signature
    [pub extern "C" fn open_doc(path: *const c_char) -> i32] parses to the
    descriptor with name [open_doc], the single parameter [path] of
    converted type [const char *] and return type [int32_t]; its
    declaration is exactly [int32_t open_doc(const char * path);]. *)
Theorem parse_open_doc :
  Re.search_fn_name open_doc_sig = Some "open_doc"
  /\ Re.search_params open_doc_sig = Some "path: *const c_char"
  /\ c_param_pairs "path: *const c_char" = [("const char *", "path")]
  /\ parse_rust_ffi_function open_doc_sig
     = Some {| name := "open_doc";
               params := "const char * path";
               return_ := "int32_t";
               declaration := "int32_t open_doc(const char * path);" |}.
Proof. repeat split; vm_compute; reflexivity. Qed.

(** C2: on [pub extern "C" fn reset()], a signature with no return arrow,
    no brace and no semicolon, the parameter pattern finds no match and
    the parser returns nothing, although the extractor completes a
    signature on exactly such a line; with the body brace on the same
    line the declaration is [void reset(void);]. *)
Theorem parse_reset_dropped :
  Re.search_params reset_sig = None
  /\ parse_rust_ffi_function reset_sig = None
  /\ extract_function_signature [reset_sig; "{"; "}"] 0 = (reset_sig, 0)
  /\ extract_ffi_functions ["#[no_mangle]"; reset_sig; "{"; "}"] = []
  /\ option_map declaration (parse_rust_ffi_function (reset_sig ++ " {"))
     = Some "void reset(void);".
Proof. repeat split; vm_compute; reflexivity. Qed.

(** ** Facts on the string builtins *)

Section StringFacts.

Lemma length_app (a b : string) :
  String.length (a ++ b) = String.length a + String.length b.
Proof. induction a as [|c a IH]; simpl; [reflexivity | now rewrite IH]. Qed.

Lemma app_assoc_str (a b c : string) : (a ++ b) ++ c = a ++ b ++ c.
Proof. induction a as [|x a IH]; simpl; [reflexivity | now rewrite IH]. Qed.

Lemma prefix_empty (s : string) : prefix "" s = true.
Proof. now destruct s. Qed.

Lemma prefix_cons (c d : ascii) (p s : string) :
  prefix (String c p) (String d s) = Ascii.eqb c d && prefix p s.
Proof.
  simpl. destruct (ascii_dec c d) as [->|n].
  - now rewrite Ascii.eqb_refl.
  - apply Ascii.eqb_neq in n. now rewrite n.
Qed.

Lemma prefix_length (p s : string) :
  prefix p s = true -> String.length p <= String.length s.
Proof.
  revert p. induction s as [|d s IH]; intros [|c p] H; simpl in *;
    try lia; try discriminate.
  destruct (ascii_dec c d); [|discriminate].
  apply IH in H. lia.
Qed.

Lemma prefix_app (p s : string) : prefix p (p ++ s) = true.
Proof.
  induction p as [|c p IH]; simpl.
  - apply prefix_empty.
  - destruct (ascii_dec c c); [exact IH | congruence].
Qed.

Lemma prefix_split (p s : string) :
  prefix p s = true -> s = p ++ drop (String.length p) s.
Proof.
  revert p. induction s as [|d s IH]; intros [|c p] H; simpl in *;
    try reflexivity; try discriminate.
  destruct (ascii_dec c d) as [->|]; [|discriminate].
  f_equal. now apply IH.
Qed.

Lemma drop_length (n : nat) (s : string) :
  String.length (drop n s) = String.length s - n.
Proof.
  revert s. induction n as [|n IH]; intros [|c s]; simpl; auto.
Qed.

Lemma lstrip_length (s : string) : String.length (lstrip s) <= String.length s.
Proof.
  induction s as [|c s IH]; simpl; [lia|].
  destruct (isspace c); simpl; lia.
Qed.

Lemma rstrip_length (s : string) : String.length (rstrip s) <= String.length s.
Proof.
  induction s as [|c s IH]; simpl; [lia|].
  destruct (rstrip s); [destruct (isspace c)|]; simpl in *; lia.
Qed.

Lemma strip_length (s : string) : String.length (strip s) <= String.length s.
Proof.
  unfold strip. pose proof (rstrip_length (lstrip s)).
  pose proof (lstrip_length s). lia.
Qed.

(** Every segment of a split is at most as long as the string. *)
Lemma cons_seg_length (c : ascii) (s : string) (segs : list string) :
  Forall (fun seg => String.length seg <= String.length s) segs ->
  Forall (fun seg => String.length seg <= String.length (String c s))
    (cons_seg c segs).
Proof.
  intros H. destruct segs as [|seg segs]; simpl.
  - constructor; [simpl; lia | constructor].
  - inversion H; subst. constructor; [simpl; lia|].
    eapply Forall_impl; [|eassumption]. simpl. intros; lia.
Qed.

Lemma split_path_length (s : string) :
  Forall (fun seg => String.length seg <= String.length s) (split_path s).
Proof.
  enough (H : Forall (fun seg => String.length seg <= String.length s)
                (split_path s)
              /\ forall c,
                  Forall (fun seg => String.length seg <= String.length (String c s))
                    (split_path (String c s))) by apply H.
  induction s as [|d s [IH1 IH2]].
  - split; [constructor; [simpl; lia | constructor]|].
    intros c. constructor; [simpl; lia | constructor].
  - split; [apply IH2|]. intros c.
    change (split_path (String c (String d s)))
      with (if Ascii.eqb c ":" && Ascii.eqb d ":" then "" :: split_path s
            else cons_seg c (split_path (String d s))).
    destruct (Ascii.eqb c ":" && Ascii.eqb d ":").
    + constructor; [simpl; lia|].
      eapply Forall_impl; [|exact IH1]. simpl. intros; lia.
    + apply cons_seg_length, IH2.
Qed.

Lemma last_length (l : list string) (n : nat) :
  Forall (fun seg => String.length seg <= n) l ->
  String.length (last l "") <= n.
Proof.
  induction l as [|x l IH]; intros H; simpl; [lia|].
  inversion H; subst. destruct l; [assumption | now apply IH].
Qed.

Lemma last_segment_length (s : string) :
  String.length (last_segment s) <= String.length s.
Proof. apply last_length, split_path_length. Qed.

End StringFacts.

(** ** The character classes of the patterns *)

(** No character is both white space and a word character, so in
    [fn\s+(\w+)] the greedy runs are the only match. *)
Lemma isspace_isword_disjoint (c : ascii) : isspace c && isword c = false.
Proof. destruct c as [[] [] [] [] [] [] [] []]; reflexivity. Qed.

(** White space begins none of the tokens that may follow the parameter
    list, so the greedy [\s*] before them is the only match. *)
Lemma isspace_not_token (c : ascii) :
  isspace c = true ->
  Ascii.eqb c "-" || Ascii.eqb c "{" || Ascii.eqb c ";" = false.
Proof.
  destruct c as [[] [] [] [] [] [] [] []]; vm_compute; intros H;
    first [reflexivity | discriminate H].
Qed.

(** ** The recursion of the type conversion *)

(** The two recursive calls are on strictly shorter strings. *)
Lemma convert_body_ext (f g : string -> string) (s : string) :
  (forall x, String.length x < String.length s -> f x = g x) ->
  convert_body f s = convert_body g s.
Proof.
  intros H. unfold convert_body.
  pose proof (strip_length s) as Hs.
  destruct (dict_get TYPE_MAP (strip s)); [reflexivity|].
  destruct (startswith "*const " (strip s)) eqn:Hc.
  - apply prefix_length in Hc. simpl in Hc.
    set (inner0 := strip (drop 7 (strip s))).
    assert (H0 : String.length inner0 + 7 <= String.length s).
    { unfold inner0. pose proof (strip_length (drop 7 (strip s))).
      rewrite drop_length in *. lia. }
    set (inner1 := if contains "::" inner0 && negb (startswith "*" inner0)
                   then last_segment inner0 else inner0).
    assert (H1 : String.length inner1 <= String.length inner0).
    { unfold inner1. destruct (_ && _); [apply last_segment_length | lia]. }
    set (inner2 := if inner1 =? "c_char" then "char" else inner1).
    assert (H2 : String.length inner2 <= String.length inner1).
    { unfold inner2. destruct (String.eqb_spec inner1 "c_char") as [->|];
        simpl; lia. }
    rewrite (H inner2) by lia. reflexivity.
  - destruct (startswith "*mut " (strip s)) eqn:Hm; [|reflexivity].
    apply prefix_length in Hm. simpl in Hm.
    rewrite H; [reflexivity|].
    pose proof (strip_length (drop 5 (strip s))).
    rewrite drop_length in *. lia.
Qed.

Lemma convert_fuel_enough (n m : nat) (s : string) :
  String.length s < n -> String.length s < m ->
  convert_fuel n s = convert_fuel m s.
Proof.
  revert m s. induction n as [|n IH]; intros m s Hn Hm; [lia|].
  destruct m as [|m]; [lia|]. simpl.
  apply convert_body_ext. intros x Hx. apply IH; lia.
Qed.

(** The defining equation of [convert_rust_type_to_c]: the function is
    its body, called on itself. *)
Lemma convert_rust_type_to_c_unfold (s : string) :
  convert_rust_type_to_c s = convert_body convert_rust_type_to_c s.
Proof.
  unfold convert_rust_type_to_c at 1. simpl.
  apply convert_body_ext. intros x Hx.
  apply convert_fuel_enough; lia.
Qed.

(** ** Stripping *)

Section StripFacts.

Lemma lstrip_clean (s : string) : starts_clean s = true -> lstrip s = s.
Proof.
  destruct s as [|c s]; simpl; [reflexivity|].
  now destruct (isspace c).
Qed.

Lemma lstrip_starts_clean (s : string) : starts_clean (lstrip s) = true.
Proof.
  induction s as [|c s IH]; simpl; [reflexivity|].
  destruct (isspace c) eqn:E; [exact IH|]. simpl. now rewrite E.
Qed.

Lemma rstrip_cons (c : ascii) (s : string) :
  rstrip (String c s)
  = if (rstrip s =? "") && isspace c then ""
    else String c (rstrip s).
Proof.
  simpl. destruct (rstrip s); simpl; [|reflexivity].
  now destruct (isspace c).
Qed.

Lemma rstrip_starts_clean (s : string) :
  starts_clean s = true -> starts_clean (rstrip s) = true.
Proof.
  destruct s as [|c s]; [reflexivity|]. intros H.
  rewrite rstrip_cons. destruct (_ && _); [reflexivity | exact H].
Qed.

Lemma rstrip_idem (s : string) : rstrip (rstrip s) = rstrip s.
Proof.
  induction s as [|c s IH]; [reflexivity|].
  rewrite rstrip_cons.
  destruct ((rstrip s =? "") && isspace c) eqn:E; [reflexivity|].
  rewrite rstrip_cons, IH, E. reflexivity.
Qed.

Lemma lstrip_rstrip (s : string) : lstrip (rstrip s) = rstrip (lstrip s).
Proof.
  induction s as [|c s IH]; [reflexivity|].
  rewrite rstrip_cons. simpl lstrip at 2.
  destruct (isspace c) eqn:E.
  - rewrite andb_true_r.
    destruct (String.eqb_spec (rstrip s) "") as [Hr|Hr].
    + rewrite <- IH, Hr. reflexivity.
    + simpl. now rewrite E.
  - rewrite andb_false_r, rstrip_cons, E, andb_false_r.
    simpl. now rewrite E.
Qed.

Lemma strip_idem (s : string) : strip (strip s) = strip s.
Proof.
  unfold strip.
  rewrite (lstrip_clean (rstrip (lstrip s))).
  - apply rstrip_idem.
  - apply rstrip_starts_clean, lstrip_starts_clean.
Qed.

Lemma strip_rstrip (s : string) : strip (rstrip s) = strip s.
Proof. unfold strip. now rewrite lstrip_rstrip, rstrip_idem. Qed.

Lemma rstrip_nonempty (s : string) : strip s <> "" -> rstrip s <> "".
Proof.
  intros H E. apply H. unfold strip. now rewrite <- lstrip_rstrip, E.
Qed.

Lemma rstrip_app (a b : string) :
  rstrip b <> "" -> rstrip (a ++ b) = a ++ rstrip b.
Proof.
  intros H. induction a as [|c a IH]; [reflexivity|].
  simpl append. rewrite rstrip_cons, IH.
  destruct (String.eqb_spec (a ++ rstrip b) "") as [E|E]; [|reflexivity].
  destruct a; simpl in E; [contradiction | discriminate].
Qed.

(** A qualifier in front of a type that is not blank survives the strip,
    and stripping what follows it gives the stripped type. *)
Lemma strip_qualified (p s : string) :
  starts_clean p = true -> p <> "" -> strip s <> "" ->
  strip (p ++ s) = p ++ rstrip s.
Proof.
  intros Hp Hne Hs. unfold strip.
  rewrite lstrip_clean.
  - apply rstrip_app, rstrip_nonempty, Hs.
  - destruct p; [contradiction | exact Hp].
Qed.

Lemma strip_fixed_rstrip (s : string) : strip s = s -> rstrip s = s.
Proof.
  intros H. rewrite <- H at 1. unfold strip. rewrite rstrip_idem. exact H.
Qed.

End StripFacts.

(** ** Equations of the type conversion *)

Lemma convert_strip (s : string) :
  convert_rust_type_to_c (strip s) = convert_rust_type_to_c s.
Proof.
  rewrite (convert_rust_type_to_c_unfold (strip s)),
    (convert_rust_type_to_c_unfold s).
  unfold convert_body. now rewrite strip_idem.
Qed.

Ltac key_cases t :=
  unfold TYPE_MAP; cbn [dict_get];
  repeat match goal with
    | |- context [String.eqb t ?k] =>
        destruct (String.eqb_spec t k) as [->|?]; [vm_compute; auto|]
    end.

(** No key of the table begins with a star, holds the handle marker or
    a path separator. *)
Lemma dict_get_star (t : string) :
  startswith "*" t = true -> dict_get TYPE_MAP t = None.
Proof.
  intros H. destruct t as [|c t]; [discriminate|].
  unfold startswith in H. rewrite prefix_cons in H.
  apply andb_prop in H as [H _]. apply Ascii.eqb_eq in H. subst c.
  reflexivity.
Qed.

Lemma dict_get_handle (t : string) :
  contains "Handle" t = true -> dict_get TYPE_MAP t = None.
Proof.
  revert t. 
  enough (H : forall t v, dict_get TYPE_MAP t = Some v ->
                          contains "Handle" t = false).
  { intros t Ht. destruct (dict_get TYPE_MAP t) eqn:E; [|reflexivity].
    apply H in E. congruence. }
  intros t v. key_cases t. discriminate.
Qed.

(** Conversion of a pointer to mutable. *)
Lemma convert_mut (s : string) :
  strip s <> "" ->
  convert_rust_type_to_c ("*mut " ++ s) = convert_rust_type_to_c s ++ " *".
Proof.
  intros Hs. rewrite convert_rust_type_to_c_unfold. unfold convert_body.
  rewrite (strip_qualified "*mut " s) by (auto; discriminate).
  rewrite dict_get_star by reflexivity.
  replace (startswith "*const " ("*mut " ++ rstrip s)) with false by reflexivity.
  unfold startswith at 1. rewrite prefix_app.
  change (drop 5 ("*mut " ++ rstrip s)) with (rstrip s).
  rewrite strip_rstrip, convert_strip. reflexivity.
Qed.

(** Conversion of a pointer to const. *)
Lemma convert_const (s : string) :
  strip s <> "" ->
  convert_rust_type_to_c ("*const " ++ s)
  = let inner_c := convert_rust_type_to_c (const_inner (strip s)) in
    if inner_c =? "char" then "const char *" else inner_c ++ " const *".
Proof.
  intros Hs. rewrite convert_rust_type_to_c_unfold. unfold convert_body.
  rewrite (strip_qualified "*const " s) by (auto; discriminate).
  rewrite dict_get_star by reflexivity.
  unfold startswith at 1. rewrite prefix_app.
  change (drop 7 ("*const " ++ rstrip s)) with (rstrip s).
  rewrite strip_rstrip. reflexivity.
Qed.

(** ** Qualified paths *)

(** C3: a bare qualified path is cut to its last segment only by the last
    rule, and the segment is returned as it is: [std::ffi::c_char] gives
    [c_char], not the [char] that [c_char] alone gives.  The branch for
    [*mut] does not cut the path of its pointee, so [*mut std::ffi::c_char]
    gives [c_char *] where [*mut c_char] gives [char *]; the branch for
    [*const] does cut it. *)
Theorem qualified_path_last_segment_unconverted :
  convert_rust_type_to_c "std::ffi::c_char" = "c_char"
  /\ convert_rust_type_to_c "c_char" = "char"
  /\ convert_rust_type_to_c "*mut std::ffi::c_char" = "c_char *"
  /\ convert_rust_type_to_c "*mut c_char" = "char *"
  /\ convert_rust_type_to_c "*const std::ffi::c_char" = "const char *"
  /\ convert_rust_type_to_c "*const c_char" = "const char *".
Proof. repeat split; vm_compute; reflexivity. Qed.

(** ** Handles *)

Lemma handle_pointer_counterexample :
  contains "Handle" "*mut Handle" = true
  /\ convert_rust_type_to_c "*mut Handle" = "int32_t *"
  /\ convert_rust_type_to_c "*mut Handle" <> "int32_t"
  /\ convert_rust_type_to_c "*const FooHandle" = "int32_t const *".
Proof. repeat split; try (vm_compute; reflexivity). vm_compute. discriminate. Qed.

(** C4 (amended): a type whose stripped text holds the marker [Handle]
    and does not begin with a pointer qualifier converts to [int32_t];
    behind a qualifier the pointer suffix is kept: [*mut] in front of
    such a type gives [int32_t *], and [*const] in front of such a type
    that holds no path separator gives [int32_t const *].  (With a path
    separator the branch for [*const] cuts the pointee to its last
    segment first; that case is not part of the statement.) *)
Theorem handle_erasure_unqualified (s : string) :
  contains "Handle" (strip s) = true ->
  startswith "*const " (strip s) = false ->
  startswith "*mut " (strip s) = false ->
  convert_rust_type_to_c s = "int32_t"
  /\ convert_rust_type_to_c ("*mut " ++ s) = "int32_t *"
  /\ (contains "::" (strip s) = false ->
      convert_rust_type_to_c ("*const " ++ s) = "int32_t const *").
Proof.
  intros Hh Hc Hm.
  assert (Hs : convert_rust_type_to_c s = "int32_t").
  { rewrite convert_rust_type_to_c_unfold. unfold convert_body.
    now rewrite (dict_get_handle _ Hh), Hc, Hm, Hh. }
  assert (Hne : strip s <> "").
  { intros E. rewrite E in Hh. discriminate. }
  split; [exact Hs|]. split.
  - now rewrite convert_mut, Hs.
  - intros Hp. rewrite convert_const by assumption.
    unfold const_inner. rewrite Hp. simpl andb. cbv iota.
    destruct (String.eqb_spec (strip s) "c_char") as [E|_].
    + rewrite E in Hh. discriminate.
    + cbv zeta. now rewrite convert_strip, Hs.
Qed.

Lemma handle_erasure_unqualified_witness :
  contains "Handle" (strip " FooHandle ") = true
  /\ startswith "*const " (strip " FooHandle ") = false
  /\ startswith "*mut " (strip " FooHandle ") = false
  /\ (convert_rust_type_to_c " FooHandle " = "int32_t"
      /\ convert_rust_type_to_c ("*mut " ++ " FooHandle ") = "int32_t *"
      /\ (contains "::" (strip " FooHandle ") = false ->
          convert_rust_type_to_c ("*const " ++ " FooHandle ")
          = "int32_t const *")).
Proof.
  split; [reflexivity|]. split; [reflexivity|]. split; [reflexivity|].
  apply (handle_erasure_unqualified " FooHandle "); reflexivity.
Defined.

(** ** Nested pointers *)






(** ** The index returned by the extractor *)

Ltac loop_cases :=
  cbn [extract_loop]; cbv zeta;
  repeat match goal with
    | |- context [if ?b then _ else _] =>
        lazymatch b with
        | context [extract_loop] => fail
        | _ => destruct b eqn:?
        end
    end.

(** Where the loop stops: never before [idx]; on a line of [rest], which
    it has then appended to the signature; or behind the last line. *)
Lemma extract_loop_index (rest : list string) :
  forall (idx : nat) (sl : list string) (d : Z) (f : bool),
    let r := extract_loop rest idx sl d f in
    idx <= snd r
    /\ match nth_error rest (snd r - idx) with
       | Some l => fst r <> [] /\ last (fst r) "" = strip l
       | None => snd r = idx + List.length rest
       end.
Proof.
  induction rest as [|l rest IH]; intros idx sl d f.
  - simpl. split; [lia|]. rewrite Nat.sub_diag. simpl. lia.
  - assert (Hrec : forall sl' d' f',
               let r := extract_loop rest (S idx) sl' d' f' in
               idx <= snd r
               /\ match nth_error (l :: rest) (snd r - idx) with
                  | Some l0 => fst r <> [] /\ last (fst r) "" = strip l0
                  | None => snd r = idx + List.length (l :: rest)
                  end).
    { intros sl' d' f'. specialize (IH (S idx) sl' d' f').
      cbv zeta in *. destruct IH as [Hle Hm]. split; [lia|].
      replace (snd (extract_loop rest (S idx) sl' d' f') - idx)
        with (S (snd (extract_loop rest (S idx) sl' d' f') - S idx)) by lia.
      simpl nth_error. simpl List.length.
      destruct (nth_error rest _); [exact Hm | lia]. }
    assert (Hbrk : forall sl',
               idx <= idx
               /\ match nth_error (l :: rest) (idx - idx) with
                  | Some l0 =>
                      (sl' ++ [strip l])%list <> []
                      /\ last (sl' ++ [strip l])%list "" = strip l0
                  | None => idx = idx + List.length (l :: rest)
                  end).
    { intros sl'. split; [lia|]. rewrite Nat.sub_diag. simpl. split.
      - intros E. apply app_eq_nil in E as [_ E]. discriminate.
      - apply last_last. }
    cbv zeta. loop_cases; first [apply Hrec | apply Hbrk].
Qed.

(** The lines behind the returned index play no part in the result. *)
Lemma extract_loop_consumed (rest : list string) :
  forall (idx : nat) (sl : list string) (d : Z) (f : bool),
    let r := extract_loop rest idx sl d f in
    extract_loop (firstn (S (snd r - idx)) rest) idx sl d f = r.
Proof.
  induction rest as [|l rest IH]; intros idx sl d f; [reflexivity|].
  assert (Hrec : forall sl' d' f',
             let r := extract_loop rest (S idx) sl' d' f' in
             extract_loop (firstn (snd r - idx) rest) (S idx) sl' d' f' = r).
  { intros sl' d' f'. cbv zeta.
    pose proof (extract_loop_index rest (S idx) sl' d' f') as [Hle _].
    cbv zeta in Hle.
    replace (snd (extract_loop rest (S idx) sl' d' f') - idx)
      with (S (snd (extract_loop rest (S idx) sl' d' f') - S idx)) by lia.
    apply IH. }
  cbv zeta. rewrite firstn_cons.
  cbn [extract_loop]. cbv zeta.
  repeat match goal with
    | |- context [if ?b then _ else _] =>
        lazymatch b with
        | context [extract_loop] => fail
        | context [firstn] => fail
        | _ => destruct b eqn:?
        end
    end; first [apply Hrec | reflexivity].
Qed.

(** The extractor never returns an index before its start. *)
Lemma extract_index_ge (lines : list string) (start_idx : nat) :
  start_idx <= snd (extract_function_signature lines start_idx).
Proof.
  unfold extract_function_signature, extract_sig_lines.
  pose proof (extract_loop_index (skipn start_idx lines) start_idx [] 0%Z false)
    as [H _].
  cbv zeta in H.
  now destruct (extract_loop (skipn start_idx lines) start_idx [] 0%Z false).
Qed.

(** The loop of [extract_ffi_functions] ends within as many rounds as
    there are lines left: more fuel changes nothing. *)
Lemma ffi_loop_fuel_enough (fuel : nat) :
  forall (fuel' : nat) (lines : list string) (i : nat) (fs : list FuncInfo),
    List.length lines <= i + fuel -> List.length lines <= i + fuel' ->
    ffi_loop fuel lines i fs = ffi_loop fuel' lines i fs.
Proof.
  induction fuel as [|fuel IH]; intros fuel' lines i fs H H'.
  - destruct fuel' as [|fuel']; [reflexivity|]. simpl.
    replace (nth_error lines i) with (@None string); [reflexivity|].
    symmetry. apply nth_error_None. lia.
  - destruct fuel' as [|fuel'].
    + simpl. replace (nth_error lines i) with (@None string); [reflexivity|].
      symmetry. apply nth_error_None. lia.
    + simpl. destruct (nth_error lines i) as [l|]; [|reflexivity].
      destruct (is_marker (strip l)).
      * pose proof (extract_index_ge lines (i + 1)) as Hge.
        destruct (extract_function_signature lines (i + 1)) as [sig next].
        simpl in Hge. apply IH; lia.
      * apply IH; lia.
Qed.



(** ** Substrings of appended and stripped strings *)

Section ContainsFacts.

Lemma prefix_app_l (n a b : string) :
  prefix n a = true -> prefix n (a ++ b) = true.
Proof.
  revert n. induction a as [|x a IH]; intros [|y n] H;
    try apply prefix_empty; try discriminate.
  simpl append. rewrite prefix_cons in *.
  apply andb_prop in H as [H1 H2]. now rewrite H1, IH.
Qed.

Lemma contains_cons (n : string) (x : ascii) (a : string) :
  contains n (String x a) = prefix n (String x a) || contains n a.
Proof. reflexivity. Qed.

Lemma contains_app_l (n a b : string) :
  contains n a = true -> contains n (a ++ b) = true.
Proof.
  induction a as [|x a IH]; intros H.
  - destruct n as [|y n]; [|discriminate].
    destruct b; reflexivity.
  - rewrite contains_cons in H. simpl append. rewrite contains_cons.
    apply orb_prop in H as [H|H].
    + apply (prefix_app_l n (String x a) b) in H. simpl append in H.
      now rewrite H.
    + now rewrite IH, orb_true_r.
Qed.

Lemma contains_app_r (n a b : string) :
  contains n b = true -> contains n (a ++ b) = true.
Proof.
  intros H. induction a as [|x a IH]; [exact H|].
  simpl append. rewrite contains_cons. now rewrite IH, orb_true_r.
Qed.

(** A needle without the character that [b] begins with lies on one side
    of the seam of [a ++ b]. *)
Lemma prefix_app_absent (n a : string) (c : ascii) (b : string) :
  has_char c n = false ->
  prefix n (a ++ String c b) = prefix n a.
Proof.
  revert n. induction a as [|x a IH]; intros [|y n] H;
    try reflexivity.
  - simpl in H. apply orb_false_elim in H as [H _].
    simpl append. rewrite prefix_cons, H. reflexivity.
  - simpl in H. apply orb_false_elim in H as [_ H].
    simpl append. rewrite !prefix_cons, IH by assumption. reflexivity.
Qed.

Lemma contains_app_absent (n a : string) (c : ascii) (b : string) :
  n <> "" -> has_char c n = false ->
  contains n (a ++ String c b) = contains n a || contains n (String c b).
Proof.
  intros Hn Hc. induction a as [|x a IH].
  - simpl append. destruct n; [contradiction | reflexivity].
  - change (contains n (String x a ++ String c b))
      with (prefix n (String x a ++ String c b)
            || contains n (a ++ String c b)).
    rewrite prefix_app_absent, IH by assumption.
    rewrite (contains_cons n x a). now rewrite !orb_assoc.
Qed.

Lemma lstrip_suffix (s : string) : exists w, s = w ++ lstrip s.
Proof.
  induction s as [|c s [w IH]]; [now exists ""|].
  simpl. destruct (isspace c).
  - exists (String c w). simpl. now rewrite <- IH.
  - now exists "".
Qed.

Lemma rstrip_prefix (s : string) : exists w, s = rstrip s ++ w.
Proof.
  induction s as [|c s [w IH]]; [now exists ""|].
  rewrite rstrip_cons. destruct (_ && _).
  - now exists (String c s).
  - exists w. simpl. now rewrite <- IH.
Qed.

Lemma drop_suffix (k : nat) (s : string) : exists w, s = w ++ drop k s.
Proof.
  revert s. induction k as [|k IH]; intros s; [now exists ""|].
  destruct s as [|c s]; [now exists ""|].
  destruct (IH s) as [w Hw]. exists (String c w). simpl. now rewrite <- Hw.
Qed.

Lemma contains_strip (n s : string) :
  contains n s = false -> contains n (strip s) = false.
Proof.
  intros H. destruct (contains n (strip s)) eqn:E; [|reflexivity].
  unfold strip in E.
  destruct (rstrip_prefix (lstrip s)) as [w1 H1].
  destruct (lstrip_suffix s) as [w2 H2].
  apply (contains_app_l _ _ w1) in E. rewrite <- H1 in E.
  apply (contains_app_r _ w2) in E. rewrite <- H2 in E. congruence.
Qed.

Lemma contains_drop (n : string) (k : nat) (s : string) :
  contains n s = false -> contains n (drop k s) = false.
Proof.
  intros H. destruct (contains n (drop k s)) eqn:E; [|reflexivity].
  destruct (drop_suffix k s) as [w Hw].
  apply (contains_app_r _ w) in E. rewrite <- Hw in E. congruence.
Qed.

Lemma lstrip_blank_rstrip (s : string) : lstrip s = "" -> rstrip s = "".
Proof.
  induction s as [|c s IH]; [reflexivity|]. simpl lstrip.
  destruct (isspace c) eqn:E; [|discriminate].
  intros H. rewrite rstrip_cons, (IH H), E. reflexivity.
Qed.

Lemma strip_blank_rstrip (s : string) : strip s = "" -> rstrip s = "".
Proof.
  intros H. unfold strip in H. rewrite <- lstrip_rstrip in H.
  apply lstrip_blank_rstrip in H. now rewrite rstrip_idem in H.
Qed.

Lemma rstrip_app_blank (a b : string) :
  rstrip b = "" -> rstrip (a ++ b) = rstrip a.
Proof.
  intros H. induction a as [|c a IH]; [exact H|].
  simpl append. now rewrite !rstrip_cons, IH.
Qed.

(** What follows a qualifier in a stripped string is not blank. *)
Lemma strip_after_space (a r : string) :
  rstrip (a ++ String " " r) = a ++ String " " r -> strip r <> "".
Proof.
  intros H E. apply strip_blank_rstrip in E.
  rewrite rstrip_app_blank in H.
  - pose proof (rstrip_length a) as Hl. rewrite H, length_app in Hl.
    simpl in Hl. lia.
  - rewrite rstrip_cons, E. reflexivity.
Qed.

Lemma strip_starts_clean (s : string) : strip s = s -> starts_clean s = true.
Proof.
  intros H. rewrite <- H. apply rstrip_starts_clean, lstrip_starts_clean.
Qed.

End ContainsFacts.

(** ** Idempotence of the type conversion *)

Lemma startswith_star_more (p o : string) :
  startswith "*" o = false -> startswith (String "*" p) o = false.
Proof.
  unfold startswith. destruct o as [|c o]; [reflexivity|].
  rewrite !prefix_cons, prefix_empty, andb_true_r. now intros ->.
Qed.

Lemma stable_fixed (o : string) : stable o -> convert_rust_type_to_c o = o.
Proof.
  intros (Hs & Hp & Hc & Hh & Hd).
  rewrite convert_rust_type_to_c_unfold. unfold convert_body.
  rewrite Hs.
  destruct Hd as [Hd|Hd]; rewrite Hd; [|reflexivity].
  rewrite !startswith_star_more by assumption.
  rewrite Hh, Hc. now destruct (_ || _).
Qed.

Lemma dict_get_values (t v : string) :
  dict_get TYPE_MAP t = Some v ->
  stable v /\ v <> "" /\ contains " " t = false.
Proof.
  key_cases t; try discriminate;
    intros [= <-]; (split; [|split; [discriminate | reflexivity]]);
    unfold stable; repeat split; auto.
Qed.

Lemma startswith_app_nonempty (p : ascii) (o b : string) :
  o <> "" -> startswith (String p "") (o ++ b) = startswith (String p "") o.
Proof.
  intros H. destruct o as [|c o]; [contradiction|].
  unfold startswith. simpl append.
  now rewrite !prefix_cons, !prefix_empty.
Qed.

(** A pointer suffix behind a stable, non-empty string gives a stable
    string. *)
Lemma stable_suffix (o : string) (q : qualifier) :
  stable o -> o <> "" -> stable (o ++ c_suffix q).
Proof.
  intros (Hs & Hp & Hc & Hh & Hd) Hne.
  assert (Hq : exists b, c_suffix q = String " " b /\ rstrip (c_suffix q) = c_suffix q).
  { destruct q; simpl; eauto. }
  destruct Hq as (b & Eq & Hr).
  unfold stable. repeat split.
  - unfold strip. rewrite lstrip_clean.
    + rewrite rstrip_app; rewrite Hr; [reflexivity|]. rewrite Eq. discriminate.
    + apply strip_starts_clean in Hs. destruct o; [contradiction | exact Hs].
  - now rewrite startswith_app_nonempty.
  - rewrite Eq, contains_app_absent, Hc, <- Eq by (reflexivity || discriminate).
    now destruct q.
  - rewrite Eq, contains_app_absent, Hh, <- Eq by (reflexivity || discriminate).
    now destruct q.
  - left. destruct (dict_get TYPE_MAP (o ++ c_suffix q)) eqn:E; [|reflexivity].
    apply dict_get_values in E as (_ & _ & E).
    rewrite contains_app_r in E; [discriminate|]. now destruct q.
Qed.

Lemma app_nonempty_r (a b : string) : b <> "" -> a ++ b <> "".
Proof. destruct a, b; simpl; congruence. Qed.

(** Without a path separator, only a blank type converts to nothing. *)
Lemma convert_nonempty (s : string) :
  contains "::" s = false -> strip s <> "" ->
  convert_rust_type_to_c s <> "".
Proof.
  intros Hc Hs. rewrite convert_rust_type_to_c_unfold. unfold convert_body.
  apply contains_strip in Hc.
  destruct (dict_get TYPE_MAP (strip s)) eqn:Ed.
  { now apply dict_get_values in Ed. }
  destruct (startswith "*const " (strip s)).
  { cbv zeta. destruct (_ =? "char"); [discriminate|].
    apply app_nonempty_r. discriminate. }
  destruct (startswith "*mut " (strip s)).
  { apply app_nonempty_r. discriminate. }
  destruct (contains "Handle" (strip s)); [discriminate|].
  rewrite Hc. now destruct (_ || _).
Qed.

(** The pointee of a qualifier [p] in a stripped string. *)
Lemma pointee_facts (p t : string) :
  (exists a, p = a ++ " ") ->
  strip t = t -> startswith p t = true -> contains "::" t = false ->
  let inner := strip (drop (String.length p) t) in
  inner <> "" /\ contains "::" inner = false
  /\ String.length inner + String.length p <= String.length t.
Proof.
  intros [a ->] Ht Hp Hc. cbv zeta. repeat split.
  - apply prefix_split in Hp. apply strip_fixed_rstrip in Ht.
    set (r := drop (String.length (a ++ " ")) t) in *.
    assert (H : rstrip (a ++ String " " r) = a ++ String " " r).
    { change (String " " r) with (" " ++ r).
      rewrite <- app_assoc_str, <- Hp. exact Ht. }
    now apply strip_after_space in H.
  - now apply contains_strip, contains_drop.
  - pose proof (strip_length (drop (String.length (a ++ " ")) t)) as H.
    rewrite drop_length in H. apply prefix_length in Hp. lia.
Qed.

Lemma convert_stable (n : nat) :
  forall s,
    String.length s < n ->
    contains "::" s = false ->
    startswith "*" (convert_rust_type_to_c s) = false ->
    stable (convert_rust_type_to_c s).
Proof.
  induction n as [|n IH]; intros s Hn Hc; [lia|].
  rewrite convert_rust_type_to_c_unfold. unfold convert_body.
  pose proof (strip_length s) as Hl.
  pose proof (contains_strip _ _ Hc) as Hct.
  pose proof (strip_idem s) as Hidem.
  destruct (dict_get TYPE_MAP (strip s)) eqn:Ed.
  { intros _. now apply dict_get_values in Ed. }
  destruct (startswith "*const " (strip s)) eqn:Epc.
  { destruct (pointee_facts "*const " (strip s)) as (Hne & Hci & Hli);
      auto; [now exists "*const"|].
    change (String.length "*const ") with 7 in *.
    set (inner := strip (drop 7 (strip s))) in *.
    rewrite Hci. simpl andb. cbv iota.
    set (inner2 := if inner =? "c_char" then "char" else inner).
    assert (H2 : inner2 <> "" /\ strip inner2 = inner2
                 /\ contains "::" inner2 = false
                 /\ String.length inner2 <= String.length inner).
    { unfold inner2. destruct (String.eqb_spec inner "c_char") as [E|E].
      - rewrite E. repeat split; [discriminate | simpl; lia].
      - repeat split; auto. apply strip_idem. }
    destruct H2 as (H2ne & H2s & H2c & H2l).
    cbv zeta.
    destruct (convert_rust_type_to_c inner2 =? "char") eqn:Ech.
    { intros _. unfold stable. repeat split; auto. }
    intros Hst.
    assert (Hcn : convert_rust_type_to_c inner2 <> "").
    { apply convert_nonempty; [assumption | now rewrite H2s]. }
    apply (stable_suffix _ Const); [|assumption].
    apply IH; [lia | assumption |].
    now rewrite (startswith_app_nonempty "*") in Hst. }
  destruct (startswith "*mut " (strip s)) eqn:Epm.
  { destruct (pointee_facts "*mut " (strip s)) as (Hne & Hci & Hli);
      auto; [now exists "*mut"|].
    change (String.length "*mut ") with 5 in *.
    set (inner := strip (drop 5 (strip s))) in *.
    intros Hst.
    assert (Hcn : convert_rust_type_to_c inner <> "").
    { apply convert_nonempty; [assumption|]. unfold inner.
      rewrite strip_idem. exact Hne. }
    apply (stable_suffix _ Mut); [|assumption].
    apply IH; [lia | assumption |].
    now rewrite (startswith_app_nonempty "*") in Hst. }
  destruct (contains "Handle" (strip s)) eqn:Eh.
  { intros _. unfold stable. repeat split; auto. }
  rewrite Hct.
  assert (Hgoal : startswith "*" (strip s) = false -> stable (strip s)).
  { intros Hst. unfold stable. repeat split; auto. }
  destruct (_ || _); exact Hgoal.
Qed.

Lemma idempotence_counterexample :
  convert_rust_type_to_c "*mut *const" = "*const *"
  /\ convert_rust_type_to_c (convert_rust_type_to_c "*mut *const")
     = "* const *"
  /\ convert_rust_type_to_c (convert_rust_type_to_c "*mut *const")
     <> convert_rust_type_to_c "*mut *const"
  /\ convert_rust_type_to_c (convert_rust_type_to_c "ffi::c_int")
     <> convert_rust_type_to_c "ffi::c_int".
Proof. repeat split; vm_compute; discriminate. Qed.

(** C6 (amended): the conversion is idempotent on every string without
    path separator whose conversion does not begin with a star, that is,
    whose pointer qualifiers have all been resolved. *)
Theorem convert_idempotent (s : string) :
  contains "::" s = false ->
  startswith "*" (convert_rust_type_to_c s) = false ->
  convert_rust_type_to_c (convert_rust_type_to_c s)
  = convert_rust_type_to_c s.
Proof.
  intros Hc Hs. apply stable_fixed.
  apply (convert_stable (S (String.length s))); auto.
Qed.

Lemma convert_idempotent_witness :
  contains "::" "*const *mut c_char" = false
  /\ startswith "*" (convert_rust_type_to_c "*const *mut c_char") = false
  /\ convert_rust_type_to_c (convert_rust_type_to_c "*const *mut c_char")
     = convert_rust_type_to_c "*const *mut c_char".
Proof.
  split; [reflexivity|]. split; [reflexivity|].
  apply (convert_idempotent "*const *mut c_char"); reflexivity.
Defined.

(** ** Classification and umbrella headers *)

Lemma is_pdf_prefixed (module : string) (functions : list FuncInfo) :
  existsb (fun f => startswith "pdf_" (name f)) functions = true ->
  is_pdf module functions = true.
Proof. intros H. unfold is_pdf. now rewrite H, orb_true_r. Qed.

(** C8: the loop of [main] never consults the core set.  The module
    [geometry] of that set, holding the function [pdf_area], is
    classified as document API and written under [pdf/], while [fitz.h]
    includes it under [fitz/]. *)
Theorem core_module_classified_by_prefix :
  map name (extract_ffi_functions pdf_area_lines) = ["pdf_area"]
  /\ mem "geometry" fitz_modules = true
  /\ mem "geometry" pdf_modules = false
  /\ is_pdf "geometry" (extract_ffi_functions pdf_area_lines) = true
  /\ subdir_of "geometry" (extract_ffi_functions pdf_area_lines) = "pdf"
  /\ (forall upper capitalize,
        map fst (main upper capitalize [("geometry", pdf_area_lines)] [])
        = [ "include/mupdf/pdf/geometry.h"; "include/mupdf/fitz.h";
            "include/mupdf/pdf.h"; "include/mupdf.h" ])
  /\ fitz_includes ["geometry"] fitz_modules pdf_modules
     = ["#include " ++ dq ++ "mupdf/fitz/geometry.h" ++ dq ++ nl].
Proof. repeat split; intros; vm_compute; reflexivity. Qed.

(** C9: a module of neither set that holds a prefixed function is
    classified as document API and written under [pdf/], yet [fitz.h]
    includes it under [fitz/] and [pdf.h] does not include it: the
    umbrella headers go by the two sets alone. *)
Theorem umbrella_ignores_prefix_classification :
  mem "foo" fitz_modules = false
  /\ mem "foo" pdf_modules = false
  /\ is_pdf "foo" (extract_ffi_functions pdf_area_lines) = true
  /\ (forall upper capitalize,
        map fst (main upper capitalize [("foo", pdf_area_lines)] [])
        = [ "include/mupdf/pdf/foo.h"; "include/mupdf/fitz.h";
            "include/mupdf/pdf.h"; "include/mupdf.h" ])
  /\ fitz_includes ["foo"] fitz_modules pdf_modules
     = ["#include " ++ dq ++ "mupdf/fitz/foo.h" ++ dq ++ nl]
  /\ pdf_includes ["foo"] pdf_modules = [].
Proof. repeat split; intros; vm_compute; reflexivity. Qed.

(** ** Sorting by name *)

Section SortFacts.

Lemma string_leb_trans (a b c : string) :
  (a <=? b)%string = true -> (b <=? c)%string = true ->
  (a <=? c)%string = true.
Proof.
  unfold String.leb. revert b c.
  induction a as [|x a IH]; intros [|y b] [|z c]; simpl; try easy.
  unfold Ascii.compare.
  destruct (N.compare_spec (N_of_ascii x) (N_of_ascii y)) as [E1|L1|G1];
    destruct (N.compare_spec (N_of_ascii y) (N_of_ascii z)) as [E2|L2|G2];
    destruct (N.compare_spec (N_of_ascii x) (N_of_ascii z)) as [E3|L3|G3];
    try easy; try lia.
  apply IH.
Qed.

Variable A : Type.
Variable key : A -> string.

Lemma insert_by_perm (x : A) (l : list A) :
  Permutation (x :: l) (insert_by key x l).
Proof.
  induction l as [|y l IH]; simpl; [reflexivity|].
  destruct (key x <=? key y)%string; [reflexivity|].
  rewrite perm_swap. now constructor.
Qed.

Lemma sorted_perm (l : list A) : Permutation l (sorted key l).
Proof.
  induction l as [|x l IH]; simpl; [reflexivity|].
  rewrite <- insert_by_perm. now constructor.
Qed.

Lemma insert_by_ordered (x : A) (l : list A) :
  ordered key l -> ordered key (insert_by key x l).
Proof.
  induction l as [|y l IH]; simpl; intros H; [auto|].
  destruct H as [Hy Hl].
  destruct (key x <=? key y)%string eqn:E.
  - simpl. repeat split; auto. constructor; [exact E|].
    eapply Forall_impl; [|exact Hy]. intros z Hz.
    unfold key_le in *. eapply string_leb_trans; eassumption.
  - simpl. split; [|auto].
    apply (Permutation_Forall (insert_by_perm x l)).
    constructor; [|exact Hy].
    unfold key_le. destruct (String.leb_total (key x) (key y)); congruence.
Qed.

Lemma sorted_ordered (l : list A) : ordered key (sorted key l).
Proof.
  induction l as [|x l IH]; simpl; [exact I|].
  now apply insert_by_ordered.
Qed.

(** Two ordered lists with the same elements, no two of which share a
    key, are equal. *)
Lemma ordered_unique (l l' : list A) :
  ordered key l -> ordered key l' -> Permutation l l' ->
  NoDup (map key l) -> l = l'.
Proof.
  revert l'. induction l as [|x l IH]; intros l' Ho Ho' Hp Hn.
  - apply Permutation_nil in Hp. now subst.
  - destruct l' as [|y l'].
    { apply Permutation_sym, Permutation_nil in Hp. discriminate. }
    assert (Hinj : forall a b, In a (x :: l) -> In b (x :: l) ->
                               key a = key b -> a = b).
    { clear -Hn. induction (x :: l) as [|h t IHt]; [easy|].
      inversion Hn as [|? ? Hh Ht]; subst.
      intros a b [<-|Ha] [<-|Hb] E; auto.
      - exfalso. apply Hh. rewrite E. now apply in_map.
      - exfalso. apply Hh. rewrite <- E. now apply in_map. }
    assert (Exy : x = y).
    { destruct Ho as [Hx _], Ho' as [Hy _].
      assert (Hxin : In x (y :: l')) by (eapply Permutation_in; [exact Hp | now left]).
      assert (Hyin : In y (x :: l))
        by (eapply Permutation_in; [apply Permutation_sym, Hp | now left]).
      destruct Hxin as [->|Hxin]; [reflexivity|].
      destruct Hyin as [->|Hyin]; [reflexivity|].
      rewrite Forall_forall in Hx, Hy.
      apply Hinj; [now left | now right |].
      apply String.leb_antisym; [apply Hx, Hyin | apply Hy, Hxin]. }
    subst y. f_equal.
    apply IH; [apply Ho | apply Ho' | |].
    + eapply Permutation_cons_inv, Hp.
    + now inversion Hn.
Qed.

Lemma sorted_permuted (l l' : list A) :
  Permutation l l' -> NoDup (map key l) ->
  sorted key l = sorted key l'.
Proof.
  intros Hp Hn. apply ordered_unique; try apply sorted_ordered.
  - rewrite <- (sorted_perm l), <- (sorted_perm l'). exact Hp.
  - eapply Permutation_NoDup; [|exact Hn].
    apply Permutation_map, sorted_perm.
Qed.

End SortFacts.

(** ** The dict of accumulated functions *)

Section DictFacts.

Variable V : Type.

Lemma dict_find_set (d : list (string * V)) (k : string) (v : V) (k' : string) :
  dict_find (dict_set d k v) k'
  = if k' =? k then Some v else dict_find d k'.
Proof.
  induction d as [|[k0 v0] d IH]; simpl; [reflexivity|].
  destruct (String.eqb_spec k k0) as [->|Hk]; simpl.
  - destruct (String.eqb_spec k' k0); reflexivity.
  - rewrite IH. destruct (String.eqb_spec k' k0) as [->|]; [|reflexivity].
    destruct (String.eqb_spec k0 k); [congruence | reflexivity].
Qed.

Lemma dict_set_keys (d : list (string * V)) (k : string) (v : V) (k' : string) :
  In k' (map fst (dict_set d k v)) <-> k' = k \/ In k' (map fst d).
Proof.
  induction d as [|[k0 v0] d IH]; simpl; [intuition|].
  destruct (String.eqb_spec k k0) as [->|Hk]; simpl.
  - intuition.
  - rewrite IH. intuition.
Qed.

Lemma dict_set_nodup (d : list (string * V)) (k : string) (v : V) :
  NoDup (map fst d) -> NoDup (map fst (dict_set d k v)).
Proof.
  induction d as [|[k0 v0] d IH]; simpl; intros H.
  - constructor; [intros [] | constructor].
  - inversion H as [|? ? Hk0 Hd]; subst.
    destruct (String.eqb_spec k k0) as [->|Hk]; simpl.
    + now constructor.
    + constructor; [|auto]. rewrite dict_set_keys. intuition.
Qed.

Lemma dict_find_none (d : list (string * V)) (k : string) :
  ~ In k (map fst d) -> dict_find d k = None.
Proof.
  induction d as [|[k0 v0] d IH]; simpl; intros H; [reflexivity|].
  destruct (String.eqb_spec k k0) as [->|]; [|apply IH]; intuition.
Qed.

Lemma dict_find_app (a b : list (string * V)) (k : string) :
  dict_find (a ++ b) k
  = match dict_find a k with
    | Some v => Some v
    | None => dict_find b k
    end.
Proof.
  induction a as [|[k0 v0] a IH]; simpl; [reflexivity|].
  now destruct (k =? k0).
Qed.

Lemma dict_find_split (d : list (string * V)) (k : string) (v : V) :
  dict_find d k = Some v ->
  exists d1 d2, d = (d1 ++ (k, v) :: d2)%list /\ dict_find d1 k = None.
Proof.
  induction d as [|[k0 v0] d IH]; simpl; [discriminate|].
  destruct (String.eqb_spec k k0) as [->|Hk].
  - intros [= ->]. now exists [], d.
  - intros H. destruct (IH H) as (d1 & d2 & -> & Hn).
    exists ((k0, v0) :: d1), d2. split; [reflexivity|].
    simpl. destruct (String.eqb_spec k k0); [contradiction | exact Hn].
Qed.

Lemma fold_update_nodup (us : list (option (string * V))) :
  forall d, NoDup (map fst d) -> NoDup (map fst (fold_left dict_update us d)).
Proof.
  induction us as [|[[k v]|] us IH]; simpl; intros d H; auto.
  now apply IH, dict_set_nodup.
Qed.

End DictFacts.

Section DictPermutation.

Variable T : Type.

Lemma value_perm_refl (o : option (list T)) : value_perm o o.
Proof. destruct o; simpl; auto. Qed.

Lemma value_perm_trans (a b c : option (list T)) :
  value_perm a b -> value_perm b c -> value_perm a c.
Proof.
  destruct a, b, c; simpl; try easy. apply Permutation_trans.
Qed.

Lemma dict_perm_refl (d : list (string * list T)) : dict_perm d d.
Proof. intros k. apply value_perm_refl. Qed.

Lemma dict_perm_trans (a b c : list (string * list T)) :
  dict_perm a b -> dict_perm b c -> dict_perm a c.
Proof. intros H1 H2 k. eapply value_perm_trans; [apply H1 | apply H2]. Qed.

Lemma entry_perm_refl (o : option (string * list T)) : entry_perm o o.
Proof. destruct o as [[k v]|]; simpl; auto. Qed.

Lemma dict_perm_update (d d' : list (string * list T))
    (o o' : option (string * list T)) :
  dict_perm d d' -> entry_perm o o' ->
  dict_perm (dict_update d o) (dict_update d' o').
Proof.
  intros Hd Ho. destruct o as [[k v]|], o' as [[k' v']|]; simpl in *;
    try contradiction; [|exact Hd].
  destruct Ho as [<- Hv]. intros k0. rewrite !dict_find_set.
  destruct (k0 =? k); [exact Hv | apply Hd].
Qed.

Lemma dict_perm_fold (us us' : list (option (string * list T))) :
  Forall2 entry_perm us us' ->
  forall d d', dict_perm d d' ->
    dict_perm (fold_left dict_update us d) (fold_left dict_update us' d').
Proof.
  induction 1 as [|o o' us us' Ho _ IH]; simpl; intros d d' Hd; [exact Hd|].
  apply IH. now apply dict_perm_update.
Qed.

Lemma Forall2_entry_refl (us : list (option (string * list T))) :
  Forall2 entry_perm us us.
Proof. induction us; constructor; auto using entry_perm_refl. Qed.

(** Two updates of different keys commute. *)
Lemma dict_perm_swap (d d' : list (string * list T))
    (x y : option (string * list T)) :
  NoDup (update_keys [x; y]) -> dict_perm d d' ->
  dict_perm (dict_update (dict_update d y) x)
            (dict_update (dict_update d' x) y).
Proof.
  intros Hn Hd. destruct x as [[kx vx]|], y as [[ky vy]|]; simpl in *;
    try (apply dict_perm_update; [exact Hd | apply entry_perm_refl]);
    try exact Hd.
  - inversion Hn as [|? ? Hx _]; subst.
    intros k. rewrite !dict_find_set.
    destruct (String.eqb_spec k kx) as [Ex|Nx];
      destruct (String.eqb_spec k ky) as [Ey|Ny];
      try apply value_perm_refl; [|apply Hd].
    exfalso. apply Hx. left. congruence.
  - apply (dict_perm_update d d' (Some (kx, vx)) (Some (kx, vx)));
      [exact Hd | apply entry_perm_refl].
  - apply (dict_perm_update d d' (Some (ky, vy)) (Some (ky, vy)));
      [exact Hd | apply entry_perm_refl].
Qed.

(** The order of updates of distinct keys does not matter. *)
Lemma dict_perm_permuted (us us' : list (option (string * list T))) :
  Permutation us us' -> NoDup (update_keys us) ->
  forall d d', dict_perm d d' ->
    dict_perm (fold_left dict_update us d) (fold_left dict_update us' d').
Proof.
  induction 1 as [|x l l' Hp IH|x y l|l l' l'' Hp1 IH1 Hp2 IH2];
    intros Hn d d' Hd.
  - exact Hd.
  - simpl. apply IH.
    + unfold update_keys in *. simpl in Hn.
      now apply NoDup_app_remove_l in Hn.
    + apply dict_perm_update; [exact Hd | apply entry_perm_refl].
  - simpl. apply dict_perm_fold; [apply Forall2_entry_refl|].
    apply dict_perm_swap; [|exact Hd].
    unfold update_keys in *. simpl in *. rewrite app_nil_r.
    rewrite app_assoc in Hn. apply NoDup_app_remove_r in Hn.
    eapply Permutation_NoDup; [apply Permutation_app_comm | exact Hn].
  - eapply dict_perm_trans; [apply IH1; eassumption|].
    apply IH2; [|apply dict_perm_refl].
    eapply Permutation_NoDup; [|exact Hn].
    unfold update_keys. now apply Permutation_flat_map.
Qed.

(** The rounds of a loop over two such dicts write the same files, in
    some order. *)
Lemma dict_perm_map (W : string * list T -> string * string) :
  forall d d' : list (string * list T),
    dict_perm d d' -> NoDup (map fst d) -> NoDup (map fst d') ->
    (forall k v v', In (k, v) d -> Permutation v v' -> W (k, v) = W (k, v')) ->
    Permutation (map W d) (map W d')
    /\ Permutation (map fst d) (map fst d').
Proof.
  induction d as [|[k v] d IH]; intros d' Hp Hn Hn' HW.
  - destruct d' as [|[k' v'] d']; [split; constructor|].
    specialize (Hp k'). simpl in Hp. rewrite String.eqb_refl in Hp.
    contradiction.
  - pose proof (Hp k) as Hk. simpl in Hk. rewrite String.eqb_refl in Hk.
    destruct (dict_find d' k) as [v'|] eqn:Ef; [|contradiction].
    simpl in Hk.
    destruct (dict_find_split _ _ _ _ Ef) as (d1 & d2 & -> & Hd1).
    inversion Hn as [|? ? Hkd Hnd]; subst.
    rewrite map_app in Hn'. simpl in Hn'.
    pose proof (NoDup_remove_1 _ _ _ Hn') as Hn12.
    pose proof (NoDup_remove_2 _ _ _ Hn') as Hk12.
    rewrite <- map_app in Hn12, Hk12.
    destruct (IH (d1 ++ d2)%list) as [IHw IHk]; auto.
    + intros k0. specialize (Hp k0). simpl in Hp.
      rewrite dict_find_app in Hp. simpl in Hp.
      rewrite dict_find_app.
      destruct (String.eqb_spec k0 k) as [E|Hne]; [|exact Hp].
      rewrite E. clear Hp.
      rewrite (dict_find_none _ d k Hkd).
      rewrite <- dict_find_app, (dict_find_none _ (d1 ++ d2)%list k Hk12).
      exact I.
    + intros k0 v0 v0' Hin. apply HW. now right.
    + rewrite !map_app. simpl. split.
      * rewrite (HW k v v') by (auto; now left).
        apply Permutation_cons_app. now rewrite <- map_app.
      * apply Permutation_cons_app. now rewrite <- map_app.
Qed.

End DictPermutation.

(** ** Written files *)

Section FileFacts.

Lemma app_inv_tail_str (a b c : string) : a ++ c = b ++ c -> a = b.
Proof.
  revert b. induction a as [|x a IH]; intros [|y b] H; simpl in H.
  - reflexivity.
  - exfalso. apply (f_equal String.length) in H. simpl in H.
    rewrite length_app in H. lia.
  - exfalso. apply (f_equal String.length) in H. simpl in H.
    rewrite length_app in H. lia.
  - injection H as -> H. f_equal. now apply IH.
Qed.

Lemma file_content_app (ws ms : list (string * string)) (path : string) :
  file_content (ws ++ ms) path
  = match file_content ms path with
    | Some c => Some c
    | None => file_content ws path
    end.
Proof.
  induction ws as [|[p c] ws IH]; simpl.
  - now destruct (file_content ms path).
  - rewrite IH. now destruct (file_content ms path).
Qed.

Lemma file_content_none (ws : list (string * string)) (path : string) :
  ~ In path (map fst ws) -> file_content ws path = None.
Proof.
  induction ws as [|[p c] ws IH]; simpl; intros H; [reflexivity|].
  rewrite IH by intuition.
  destruct (String.eqb_spec path p) as [E|]; [|reflexivity].
  exfalso. apply H. left. now rewrite E.
Qed.

Lemma file_content_in (ws : list (string * string)) (path c : string) :
  NoDup (map fst ws) -> In (path, c) ws -> file_content ws path = Some c.
Proof.
  induction ws as [|[p0 c0] ws IH]; simpl; intros Hn H; [contradiction|].
  inversion Hn as [|? ? Hp Hw]; subst.
  destruct H as [[= -> ->]|H].
  - rewrite file_content_none by assumption. now rewrite String.eqb_refl.
  - now rewrite (IH Hw H).
Qed.

Lemma file_content_some (ws : list (string * string)) (path c : string) :
  file_content ws path = Some c -> In (path, c) ws.
Proof.
  induction ws as [|[p0 c0] ws IH]; simpl; [discriminate|].
  destruct (file_content ws path) as [c'|].
  - intros [= ->]. right. now apply IH.
  - destruct (String.eqb_spec path p0) as [->|]; [|discriminate].
    intros [= ->]. now left.
Qed.

(** Writes to distinct paths can be made in any order. *)
Lemma file_content_permuted (ws ws' : list (string * string)) (path : string) :
  NoDup (map fst ws) -> Permutation ws ws' ->
  file_content ws path = file_content ws' path.
Proof.
  intros Hn Hp.
  assert (Hn' : NoDup (map fst ws')).
  { eapply Permutation_NoDup; [|exact Hn]. now apply Permutation_map. }
  destruct (file_content ws path) as [c|] eqn:E.
  - apply file_content_some in E. symmetry.
    apply file_content_in; [exact Hn'|]. eapply Permutation_in; eassumption.
  - destruct (file_content ws' path) as [c'|] eqn:E'; [|reflexivity].
    apply file_content_some in E'.
    apply Permutation_sym in Hp. eapply Permutation_in in E'; [|exact Hp].
    rewrite (file_content_in _ _ _ Hn E') in E. discriminate.
Qed.

Lemma subdir_of_cases (module : string) (functions : list FuncInfo) :
  subdir_of module functions = "../micropdf"
  \/ subdir_of module functions = "pdf"
  \/ subdir_of module functions = "fitz".
Proof.
  unfold subdir_of. destruct (module =? "enhanced"); auto.
  destruct (is_pdf module functions); auto.
Qed.

(** The path of a module header determines the module. *)
Lemma header_path_inj (d m m' : string) (fs fs' : list FuncInfo) :
  d ++ "/" ++ subdir_of m fs ++ "/" ++ m ++ ".h"
  = d ++ "/" ++ subdir_of m' fs' ++ "/" ++ m' ++ ".h" ->
  m = m'.
Proof.
  intros H.
  assert (H' : subdir_of m fs ++ "/" ++ m ++ ".h"
               = subdir_of m' fs' ++ "/" ++ m' ++ ".h").
  { clear -H. induction d as [|c d IH]; simpl in H.
    - now injection H.
    - injection H as H. auto. }
  clear H.
  destruct (subdir_of_cases m fs) as [E|[E|E]];
    destruct (subdir_of_cases m' fs') as [E'|[E'|E']];
    rewrite E, E' in H'; simpl in H'; try discriminate;
    repeat (injection H' as H'); now apply app_inv_tail_str in H'.
Qed.

End FileFacts.

(** ** Independence of the order of discovery *)

Section Determinism.

Variable upper : string -> string.
Variable capitalize : string -> string.

Lemma existsb_permuted {A : Type} (f : A -> bool) (l l' : list A) :
  Permutation l l' -> existsb f l = existsb f l'.
Proof.
  induction 1; simpl; try congruence.
  now rewrite !orb_assoc, (orb_comm (f y)).
Qed.

Lemma is_pdf_permuted (m : string) (fs fs' : list FuncInfo) :
  Permutation fs fs' -> is_pdf m fs = is_pdf m fs'.
Proof. intros H. unfold is_pdf. now rewrite (existsb_permuted _ _ _ H). Qed.

Lemma declarations_permuted (fs fs' : list FuncInfo) :
  Permutation fs fs' -> NoDup (map name fs) ->
  declarations fs = declarations fs'.
Proof.
  intros Hp Hn. unfold declarations.
  now rewrite (sorted_permuted _ name fs fs' Hp Hn).
Qed.

(** The header of a module does not depend on the order in which its
    functions were gathered. *)
Lemma module_write_permuted (d m : string) (fs fs' : list FuncInfo) :
  Permutation fs fs' -> NoDup (map name fs) ->
  module_write upper capitalize d (m, fs)
  = module_write upper capitalize d (m, fs').
Proof.
  intros Hp Hn. unfold module_write, subdir_of.
  unfold generate_enhanced_header, generate_module_header.
  rewrite (is_pdf_permuted m fs fs' Hp),
    (declarations_permuted fs fs' Hp Hn),
    (Permutation_length Hp).
  reflexivity.
Qed.

Lemma master_headers_permuted (d : string) (ms ms' F P : list string) :
  Permutation ms ms' -> NoDup ms ->
  generate_master_headers d ms F P = generate_master_headers d ms' F P.
Proof.
  intros Hp Hn.
  unfold generate_master_headers, fitz_header, pdf_header,
    fitz_includes, pdf_includes.
  rewrite (sorted_permuted _ (fun m => m) ms ms' Hp); [reflexivity|].
  now rewrite map_id.
Qed.

Lemma scan_files_fold (top : list (string * list string)) :
  forall d, scan_files top d = fold_left dict_update (map file_entry top) d.
Proof.
  unfold scan_files.
  induction top as [|[m ls] top IH]; intros d; [reflexivity|].
  cbn [fold_left map]. rewrite IH. f_equal. unfold file_entry.
  destruct (mem m ["mod"; "safe_helpers"]); [reflexivity|].
  now destruct (extract_ffi_functions ls).
Qed.

Lemma scan_dirs_fold (subs : list (string * list (list string))) :
  forall d, scan_dirs subs d = fold_left dict_update (map dir_entry subs) d.
Proof.
  unfold scan_dirs.
  induction subs as [|[m fs] subs IH]; intros d; [reflexivity|].
  cbn [fold_left map]. rewrite IH. f_equal. unfold dir_entry.
  now destruct (flat_map extract_ffi_functions fs).
Qed.

(** Entries keyed by the first component set keys without repetition
    when the first components do not repeat. *)
Lemma update_keys_nodup {X : Type} (entry : string * X -> option (string * list FuncInfo))
    (l : list (string * X)) :
  (forall x k v, entry x = Some (k, v) -> k = fst x) ->
  NoDup (map fst l) -> NoDup (update_keys (map entry l)).
Proof.
  intros He.
  assert (Hin : forall l k, In k (update_keys (map entry l)) -> In k (map fst l)).
  { clear -He. induction l as [|x l IH]; simpl; intros k H; [contradiction|].
    apply in_app_or in H as [H|H]; [|right; auto].
    destruct (entry x) as [[k0 v0]|] eqn:E; simpl in H; [|contradiction].
    destruct H as [<-|[]]. left. symmetry. eapply He, E. }
  induction l as [|x l IH]; simpl; intros Hn; [constructor|].
  inversion Hn as [|? ? Hx Hl]; subst.
  destruct (entry x) as [[k0 v0]|] eqn:E; simpl; [|auto].
  constructor; [|auto]. apply He in E. subst k0. intros H. apply Hx, Hin, H.
Qed.

Lemma file_entry_key (x : string * list string) k v :
  file_entry x = Some (k, v) -> k = fst x.
Proof.
  destruct x as [m ls]. unfold file_entry, fst.
  destruct (mem m ["mod"; "safe_helpers"]); [discriminate|].
  destruct (extract_ffi_functions ls); [discriminate|]. now intros [= <- _].
Qed.

Lemma dir_entry_key (x : string * list (list string)) k v :
  dir_entry x = Some (k, v) -> k = fst x.
Proof.
  destruct x as [m fs]. unfold dir_entry, fst.
  destruct (flat_map extract_ffi_functions fs); [discriminate|].
  now intros [= <- _].
Qed.

Lemma dir_entry_permuted (d d' : string * list (list string)) :
  same_dir d d' -> entry_perm (dir_entry d) (dir_entry d').
Proof.
  destruct d as [m fs], d' as [m' fs']. intros [Hm Hp]. simpl in *. subst m'.
  assert (H : Permutation (flat_map extract_ffi_functions fs)
                         (flat_map extract_ffi_functions fs'))
    by now apply Permutation_flat_map.
  destruct (flat_map extract_ffi_functions fs) as [|f l].
  - apply Permutation_nil in H. rewrite H. exact I.
  - destruct (flat_map extract_ffi_functions fs') as [|f' l'].
    + apply Permutation_sym, Permutation_nil in H. discriminate.
    + simpl. auto.
Qed.

Lemma all_functions_nodup top subs : NoDup (map fst (all_functions_of top subs)).
Proof.
  unfold all_functions_of. rewrite scan_dirs_fold, scan_files_fold.
  apply fold_update_nodup, fold_update_nodup. constructor.
Qed.

Lemma all_functions_permuted top top' subs mid subs' :
  Permutation top top' ->
  Forall2 same_dir subs mid -> Permutation mid subs' ->
  NoDup (map fst top) -> NoDup (map fst subs) ->
  dict_perm (all_functions_of top subs) (all_functions_of top' subs').
Proof.
  intros Ht Hs Hm Hnt Hns. unfold all_functions_of.
  rewrite !scan_dirs_fold, !scan_files_fold.
  assert (H1 : dict_perm (fold_left dict_update (map file_entry top) [])
                           (fold_left dict_update (map file_entry top') [])).
  { apply dict_perm_permuted; [now apply Permutation_map | | apply dict_perm_refl].
    apply update_keys_nodup; [apply file_entry_key | exact Hnt]. }
  eapply dict_perm_trans.
  - apply (dict_perm_fold _ (map dir_entry subs) (map dir_entry mid));
      [|exact H1].
    clear -Hs. induction Hs; simpl; constructor; auto using dir_entry_permuted.
  - apply dict_perm_permuted; [now apply Permutation_map | | apply dict_perm_refl].
    apply update_keys_nodup; [apply dir_entry_key|].
    replace (map fst mid) with (map fst subs); [exact Hns|].
    clear -Hs. induction Hs as [|x y l l' [E _] _ IH]; simpl; congruence.
Qed.

End Determinism.

Lemma module_paths_nodup (upper capitalize : string -> string) (d : string)
    (D : list (string * list FuncInfo)) :
  NoDup (map fst D) ->
  NoDup (map fst (map (module_write upper capitalize d) D)).
Proof.
  assert (Hin : forall D p,
             In p (map fst (map (module_write upper capitalize d) D)) ->
             exists m fs, In (m, fs) D
                          /\ p = d ++ "/" ++ subdir_of m fs ++ "/" ++ m ++ ".h").
  { clear. induction D as [|[m fs] D IH]; simpl; intros p H; [contradiction|].
    destruct H as [<-|H].
    - exists m, fs. split; [now left | reflexivity].
    - destruct (IH p H) as (m' & fs' & Hi & ->). exists m', fs'. auto. }
  induction D as [|[m fs] D IH]; simpl; intros Hn; [constructor|].
  inversion Hn as [|? ? Hm HD]; subst.
  constructor; [|auto].
  intros H. apply Hin in H as (m' & fs' & Hi & E).
  apply header_path_inj in E. subst m'.
  apply Hm. change m with (fst (m, fs')). now apply in_map.
Qed.

(** C10: the files of [src/ffi] and the files of each of its
    subdirectories may be discovered in any order: when file stems and
    directory names do not repeat and no module holds two functions of
    one name, every output file has the same content. *)
Theorem discovery_order_irrelevant (upper capitalize : string -> string)
    (top top' : list (string * list string))
    (subs mid subs' : list (string * list (list string))) :
  Permutation top top' ->
  Forall2 same_dir subs mid -> Permutation mid subs' ->
  NoDup (map fst top) -> NoDup (map fst subs) ->
  (forall m fs, In (m, fs) (all_functions_of top subs) -> NoDup (map name fs)) ->
  forall path,
    file_content (main upper capitalize top subs) path
    = file_content (main upper capitalize top' subs') path.
Proof.
  intros Ht Hs Hm Hnt Hns Hnames path. unfold main.
  change (scan_dirs subs (scan_files top [])) with (all_functions_of top subs).
  change (scan_dirs subs' (scan_files top' [])) with (all_functions_of top' subs').
  pose proof (all_functions_permuted top top' subs mid subs' Ht Hs Hm Hnt Hns)
    as Hd.
  pose proof (all_functions_nodup top subs) as Hn.
  pose proof (all_functions_nodup top' subs') as Hn'.
  destruct (dict_perm_map _ (module_write upper capitalize "include/mupdf")
              _ _ Hd Hn Hn') as [Hw Hk].
  { intros k v v' Hin Hp. apply module_write_permuted; [exact Hp|].
    eapply Hnames, Hin. }
  rewrite !file_content_app.
  rewrite (master_headers_permuted "include/mupdf" _ _ fitz_modules pdf_modules
             Hk Hn).
  destruct (file_content _ path); [reflexivity|].
  apply file_content_permuted; [|exact Hw].
  now apply module_paths_nodup.
Qed.

Lemma discovery_order_irrelevant_witness :
  Permutation ffi_files (rev ffi_files)
  /\ file_content (main (fun s => s) (fun s => s) ffi_files ffi_dirs)
       "include/mupdf/pdf/pdf_object.h"
     = file_content
         (main (fun s => s) (fun s => s) (rev ffi_files)
            (map (fun d => (fst d, rev (snd d))) ffi_dirs))
         "include/mupdf/pdf/pdf_object.h".
Proof.
  split; [apply perm_swap|].
  apply (discovery_order_irrelevant (fun s => s) (fun s => s)
           ffi_files (rev ffi_files) ffi_dirs
           (map (fun d => (fst d, rev (snd d))) ffi_dirs)
           (map (fun d => (fst d, rev (snd d))) ffi_dirs)).
  - apply perm_swap.
  - constructor; [|constructor]. split; [reflexivity | apply perm_swap].
  - apply Permutation_refl.
  - simpl. repeat constructor; simpl; intuition discriminate.
  - simpl. repeat constructor; simpl; intuition discriminate.
  - intros m fs H. vm_compute in H.
    destruct H as [H|[H|[H|[]]]]; injection H as <- <-;
      simpl; repeat constructor; simpl; intuition discriminate.
Defined.

(** * Further properties of the pipeline *)

(** ** Type conversion: the rules one by one *)

(** X1: white space around a type plays no part in its conversion. *)
Theorem convert_ignores_outer_space (s : string) :
  convert_rust_type_to_c (strip s) = convert_rust_type_to_c s
  /\ strip (strip s) = strip s.
Proof. split; [apply convert_strip | apply strip_idem]. Qed.

Lemma blank_after_qualifier (a s : string) :
  starts_clean (a ++ " ") = true -> a <> "" -> strip s = "" ->
  strip ((a ++ " ") ++ s) = rstrip a.
Proof.
  intros Hc Ha Hs. unfold strip. rewrite lstrip_clean.
  - rewrite app_assoc_str. apply rstrip_app_blank.
    simpl append. rewrite rstrip_cons, (strip_blank_rstrip _ Hs). reflexivity.
  - destruct a; [contradiction|]. exact Hc.
Qed.

(** X2: a pointer to mutable converts to the conversion of its pointee
    followed by [ *]; with a blank pointee the qualifier is no qualifier
    and the text [*mut] is returned as it is. *)
Theorem convert_pointer_to_mut (s : string) :
  convert_rust_type_to_c ("*mut " ++ s)
  = if strip s =? "" then "*mut"
    else convert_rust_type_to_c s ++ " *".
Proof.
  destruct (String.eqb_spec (strip s) "") as [E|E].
  - rewrite convert_rust_type_to_c_unfold. unfold convert_body.
    change ("*mut " ++ s) with (("*mut" ++ " ") ++ s).
    rewrite (blank_after_qualifier "*mut" s) by (auto; discriminate).
    reflexivity.
  - now apply convert_mut.
Qed.

(** X3: a pointer to const of a type without path separator collapses to
    the string idiom exactly when the pointee converts to [char];
    otherwise it is the conversion of the pointee followed by
    [ const *]. *)
Theorem convert_pointer_to_const (s : string) :
  strip s <> "" -> contains "::" s = false ->
  convert_rust_type_to_c ("*const " ++ s)
  = if convert_rust_type_to_c s =? "char" then "const char *"
    else convert_rust_type_to_c s ++ " const *".
Proof.
  intros Hs Hc. rewrite convert_const by assumption.
  unfold const_inner. rewrite (contains_strip _ _ Hc). simpl andb. cbv iota.
  destruct (String.eqb_spec (strip s) "c_char") as [E|E]; cbv zeta.
  - rewrite <- (convert_strip s), E. reflexivity.
  - now rewrite convert_strip.
Qed.

Lemma convert_pointer_to_const_witness :
  strip " fz_rect " <> ""
  /\ contains "::" " fz_rect " = false
  /\ convert_rust_type_to_c ("*const " ++ " fz_rect ")
     = if convert_rust_type_to_c " fz_rect " =? "char" then "const char *"
       else convert_rust_type_to_c " fz_rect " ++ " const *".
Proof.
  split; [vm_compute; discriminate|]. split; [reflexivity|].
  apply (convert_pointer_to_const " fz_rect ");
    [vm_compute; discriminate | reflexivity].
Defined.

Lemma prefix_first_char (a b : ascii) (p q t : string) :
  prefix (String a p) t = true -> prefix (String b q) t = true -> a = b.
Proof.
  destruct t as [|c t]; [discriminate|]. rewrite !prefix_cons.
  intros H1 H2. apply andb_prop in H1 as [H1 _], H2 as [H2 _].
  apply Ascii.eqb_eq in H1, H2. congruence.
Qed.

Lemma dict_get_keys (t v : string) :
  dict_get TYPE_MAP t = Some v ->
  startswith "fz_" t || startswith "pdf_" t = false
  /\ contains "::" t = false.
Proof. key_cases t. discriminate. Qed.

(** X4: a name with the prefix [fz_] or [pdf_] that does not hold the
    handle marker is returned stripped and otherwise unchanged, whatever
    else it holds. *)
Theorem struct_names_pass_through (s : string) :
  startswith "fz_" (strip s) || startswith "pdf_" (strip s) = true ->
  contains "Handle" (strip s) = false ->
  convert_rust_type_to_c s = strip s.
Proof.
  intros Hp Hh. rewrite convert_rust_type_to_c_unfold. unfold convert_body.
  destruct (dict_get TYPE_MAP (strip s)) eqn:Ed.
  { apply dict_get_keys in Ed as [Ed _]. congruence. }
  assert (Hstar : forall q, startswith (String "*" q) (strip s) = false).
  { intros q. destruct (startswith (String "*" q) (strip s)) eqn:E; [|reflexivity].
    unfold startswith in *. apply orb_prop in Hp as [Hp|Hp];
      pose proof (prefix_first_char _ _ _ _ _ E Hp); discriminate. }
  now rewrite !Hstar, Hh, Hp.
Qed.

Lemma struct_names_pass_through_witness :
  startswith "fz_" (strip " fz_context::inner ")
  || startswith "pdf_" (strip " fz_context::inner ") = true
  /\ contains "Handle" (strip " fz_context::inner ") = false
  /\ convert_rust_type_to_c " fz_context::inner " = strip " fz_context::inner ".
Proof.
  split; [reflexivity|]. split; [reflexivity|].
  apply (struct_names_pass_through " fz_context::inner "); reflexivity.
Defined.

(** X5: without a path separator in the input, the handle marker never
    reaches the output, at any depth of pointers. *)
Theorem convert_erases_handle (s : string) :
  contains "::" s = false ->
  contains "Handle" (convert_rust_type_to_c s) = false.
Proof.
  remember (S (String.length s)) as n eqn:En.
  assert (Hn : String.length s < n) by lia. clear En. revert s Hn.
  induction n as [|n IH]; intros s Hn Hc; [lia|].
  rewrite convert_rust_type_to_c_unfold. unfold convert_body.
  pose proof (strip_length s) as Hl.
  pose proof (contains_strip _ _ Hc) as Hct.
  pose proof (strip_idem s) as Hidem.
  destruct (dict_get TYPE_MAP (strip s)) eqn:Ed.
  { apply dict_get_values in Ed as [(_ & _ & _ & H & _) _]. exact H. }
  destruct (startswith "*const " (strip s)) eqn:Epc.
  { destruct (pointee_facts "*const " (strip s)) as (Hne & Hci & Hli);
      auto; [now exists "*const"|].
    change (String.length "*const ") with 7 in *.
    set (inner := strip (drop 7 (strip s))) in *.
    rewrite Hci. simpl andb. cbv iota.
    set (inner2 := if inner =? "c_char" then "char" else inner).
    assert (H2 : contains "::" inner2 = false
                 /\ String.length inner2 <= String.length inner).
    { unfold inner2. destruct (String.eqb_spec inner "c_char") as [E|E].
      - rewrite E. split; [reflexivity | simpl; lia].
      - split; auto. }
    destruct H2 as [H2c H2l]. cbv zeta.
    destruct (convert_rust_type_to_c inner2 =? "char"); [reflexivity|].
    change " const *" with (String " " "const *").
    rewrite contains_app_absent by (reflexivity || discriminate).
    rewrite IH by (lia || assumption). reflexivity. }
  destruct (startswith "*mut " (strip s)) eqn:Epm.
  { destruct (pointee_facts "*mut " (strip s)) as (Hne & Hci & Hli);
      auto; [now exists "*mut"|].
    change (String.length "*mut ") with 5 in *.
    change " *" with (String " " "*").
    rewrite contains_app_absent by (reflexivity || discriminate).
    rewrite IH by (lia || assumption). reflexivity. }
  destruct (contains "Handle" (strip s)) eqn:Eh; [reflexivity|].
  rewrite Hct. now destruct (_ || _).
Qed.

Lemma convert_erases_handle_witness :
  contains "::" "*const *mut DocHandle" = false
  /\ contains "Handle" (convert_rust_type_to_c "*const *mut DocHandle") = false.
Proof.
  split; [reflexivity|].
  apply (convert_erases_handle "*const *mut DocHandle"). reflexivity.
Defined.

(** X7: without a path separator, the conversion is empty exactly for a
    blank input. *)
Theorem convert_empty_iff_blank (s : string) :
  contains "::" s = false ->
  (convert_rust_type_to_c s = "" <-> strip s = "").
Proof.
  intros Hc. split.
  - intros H. destruct (String.eqb_spec (strip s) "") as [E|E]; [exact E|].
    exfalso. now apply (convert_nonempty s).
  - intros E. rewrite convert_rust_type_to_c_unfold. unfold convert_body.
    rewrite E. reflexivity.
Qed.

Lemma convert_empty_iff_blank_witness :
  contains "::" "   " = false
  /\ (convert_rust_type_to_c "   " = "" <-> strip "   " = "").
Proof.
  split; [reflexivity|]. apply (convert_empty_iff_blank "   "). reflexivity.
Defined.

(** ** Type conversion: qualified paths *)

Lemma split_path_cons2 (c d : ascii) (s : string) :
  split_path (String c (String d s))
  = if Ascii.eqb c ":" && Ascii.eqb d ":" then "" :: split_path s
    else cons_seg c (split_path (String d s)).
Proof. reflexivity. Qed.

Lemma contains_sep_cons (c : ascii) (seg : string) :
  contains "::" (String c seg)
  = (Ascii.eqb ":" c && prefix ":" seg) || contains "::" seg.
Proof. rewrite contains_cons. now rewrite prefix_cons. Qed.

(** No segment of a split holds the separator; the first one begins with
    a colon only if the string does. *)
Lemma split_path_segments (s : string) :
  Forall (fun seg => contains "::" seg = false) (split_path s)
  /\ (prefix ":" (hd "" (split_path s)) = true -> prefix ":" s = true).
Proof.
  enough (H : (Forall (fun seg => contains "::" seg = false) (split_path s)
               /\ (prefix ":" (hd "" (split_path s)) = true -> prefix ":" s = true))
              /\ forall c,
                  Forall (fun seg => contains "::" seg = false)
                    (split_path (String c s))
                  /\ (prefix ":" (hd "" (split_path (String c s))) = true ->
                      prefix ":" (String c s) = true)) by apply H.
  induction s as [|d s [[IH1 IH1'] IH2]].
  - split; [split; [repeat constructor | discriminate]|].
    intros c. simpl split_path. split; [|auto].
    constructor; [|constructor].
    rewrite contains_sep_cons. simpl. now rewrite andb_false_r.
  - split; [apply IH2|]. intros c. rewrite split_path_cons2.
    destruct (Ascii.eqb c ":" && Ascii.eqb d ":") eqn:E.
    + split; [|discriminate]. constructor; [reflexivity | exact IH1].
    + destruct (IH2 d) as [Hf Hq].
      destruct (split_path (String d s)) as [|seg0 segs]; simpl cons_seg.
      * split; [|auto]. constructor; [|constructor].
        rewrite contains_sep_cons. simpl. now rewrite andb_false_r.
      * simpl hd in *. inversion Hf as [|? ? Hseg Hsegs]; subst.
        split.
        -- constructor; [|exact Hsegs].
           rewrite contains_sep_cons, Hseg, orb_false_r.
           destruct (Ascii.eqb_spec ":" c) as [<-|]; [|reflexivity].
           destruct (prefix ":" seg0) eqn:Ep; [|reflexivity].
           specialize (Hq eq_refl). rewrite prefix_cons in Hq.
           apply andb_prop in Hq as [Hq _]. apply Ascii.eqb_eq in Hq.
           subst d. discriminate.
        -- rewrite !prefix_cons, !prefix_empty. auto.
Qed.

Lemma last_segment_no_sep (s : string) :
  contains "::" (last_segment s) = false.
Proof.
  unfold last_segment.
  destruct (split_path_segments s) as [H _].
  induction (split_path s) as [|x l IH]; [reflexivity|].
  inversion H; subst. destruct l; [assumption | now apply IH].
Qed.

(** X6: a type that is cut to its last path segment comes out without any
    path separator, and the segment is returned as it stands in the
    input. *)
Theorem path_rule_leaves_no_separator (s : string) :
  contains "::" (strip s) = true ->
  startswith "*const " (strip s) = false ->
  startswith "*mut " (strip s) = false ->
  contains "Handle" (strip s) = false ->
  startswith "fz_" (strip s) || startswith "pdf_" (strip s) = false ->
  convert_rust_type_to_c s = last_segment (strip s)
  /\ contains "::" (convert_rust_type_to_c s) = false.
Proof.
  intros Hc Hpc Hpm Hh Hf.
  assert (E : convert_rust_type_to_c s = last_segment (strip s)).
  { rewrite convert_rust_type_to_c_unfold. unfold convert_body.
    destruct (dict_get TYPE_MAP (strip s)) eqn:Ed.
    - apply dict_get_keys in Ed as [_ Ed]. congruence.
    - now rewrite Hpc, Hpm, Hh, Hf, Hc. }
  split; [exact E|]. rewrite E. apply last_segment_no_sep.
Qed.

Lemma path_rule_leaves_no_separator_witness :
  contains "::" (strip "std::os::raw::c_ulong") = true
  /\ convert_rust_type_to_c "std::os::raw::c_ulong"
     = last_segment (strip "std::os::raw::c_ulong")
  /\ contains "::" (convert_rust_type_to_c "std::os::raw::c_ulong") = false.
Proof.
  split; [reflexivity|].
  apply (path_rule_leaves_no_separator "std::os::raw::c_ulong"); reflexivity.
Defined.

(** ** The signature extractor *)

(** X8: from a start index at or behind the end of the lines, the
    extractor returns the empty signature and the start index itself. *)
Theorem extract_past_the_end (lines : list string) (start_idx : nat) :
  List.length lines <= start_idx ->
  extract_function_signature lines start_idx = ("", start_idx).
Proof.
  intros H. unfold extract_function_signature, extract_sig_lines.
  now rewrite skipn_all2.
Qed.

Lemma extract_past_the_end_witness :
  List.length ["#[no_mangle]"] <= 1
  /\ extract_function_signature ["#[no_mangle]"] 1 = ("", 1).
Proof.
  split; [simpl; lia|].
  apply (extract_past_the_end ["#[no_mangle]"] 1). simpl. lia.
Defined.

Lemma extract_loop_shift (rest : list string) (k : nat) :
  forall (idx : nat) (sl : list string) (d : Z) (f : bool),
    extract_loop rest (k + idx) sl d f
    = (fst (extract_loop rest idx sl d f),
       k + snd (extract_loop rest idx sl d f)).
Proof.
  induction rest as [|l rest IH]; intros idx sl d f; [reflexivity|].
  assert (Hrec : forall sl' d' f',
             extract_loop rest (S (k + idx)) sl' d' f'
             = (fst (extract_loop rest (S idx) sl' d' f'),
                k + snd (extract_loop rest (S idx) sl' d' f'))).
  { intros. rewrite <- IH. f_equal. lia. }
  loop_cases; first [apply Hrec | reflexivity].
Qed.

(** X9: extraction from a start index is extraction from the first line
    of the remaining lines, with the index moved by the start index. *)
Theorem extract_from_start_is_extract_of_tail (lines : list string)
    (start_idx : nat) :
  extract_function_signature lines start_idx
  = (fst (extract_function_signature (skipn start_idx lines) 0),
     start_idx + snd (extract_function_signature (skipn start_idx lines) 0)).
Proof.
  unfold extract_function_signature, extract_sig_lines. simpl skipn.
  replace start_idx with (start_idx + 0) at 2 by lia.
  rewrite extract_loop_shift.
  now destruct (extract_loop (skipn start_idx lines) 0 [] 0%Z false).
Qed.




(** X11: a line at the start index that is no comment, holds the three
    tokens, has as many opening as closing parentheses and holds a brace,
    ends in a semicolon or has no arrow is a whole signature: the
    extractor returns it stripped, with its own index. *)
Theorem extract_one_line_signature (lines : list string) (start_idx : nat)
    (l : string) :
  nth_error lines start_idx = Some l ->
  skipped (strip l) = false ->
  declares_fn (strip l) = true ->
  count "(" (strip l) = count ")" (strip l) ->
  contains "{" (strip l) || endswith ";" (strip l)
  || negb (contains "->" (strip l)) = true ->
  extract_function_signature lines start_idx = (strip l, start_idx).
Proof.
  intros Hn Hs Hd Hc He.
  unfold extract_function_signature, extract_sig_lines.
  assert (Hsk : skipn start_idx lines = l :: skipn (S start_idx) lines).
  { clear -Hn. revert lines Hn.
    induction start_idx as [|i IH]; intros [|x lines] Hn; try discriminate.
    - now injection Hn as ->.
    - simpl in Hn. now apply IH. }
  rewrite Hsk. cbn [extract_loop]. cbv zeta.
  unfold skipped, declares_fn in *. rewrite Hs, Hd. simpl orb. cbv iota.
  replace (0 + (count "(" (strip l) - count ")" (strip l)))%Z with 0%Z by lia.
  simpl Z.eqb. simpl andb.
  destruct (contains "{" (strip l) || endswith ";" (strip l)); simpl in *.
  - reflexivity.
  - rewrite He. reflexivity.
Qed.

Lemma extract_one_line_signature_witness :
  nth_error ["#[no_mangle]"; "  pub extern fn mp_version() -> i32;  "] 1
  = Some "  pub extern fn mp_version() -> i32;  "
  /\ extract_function_signature
       ["#[no_mangle]"; "  pub extern fn mp_version() -> i32;  "] 1
     = (strip "  pub extern fn mp_version() -> i32;  ", 1).
Proof.
  split; [reflexivity|].
  apply (extract_one_line_signature
           ["#[no_mangle]"; "  pub extern fn mp_version() -> i32;  "] 1
           "  pub extern fn mp_version() -> i32;  "); reflexivity.
Defined.

Lemma extract_loop_collects (pool : list string) (rest : list string) :
  (forall l, In l rest -> In (strip l) pool) ->
  forall (idx : nat) (sl : list string) (d : Z) (f : bool),
    Forall (fun line => skipped line = false /\ In line pool) sl ->
    (f = true -> sl <> []) ->
    (sl <> [] -> declares_fn (hd "" sl) = true) ->
    let r := extract_loop rest idx sl d f in
    Forall (fun line => skipped line = false /\ In line pool) (fst r)
    /\ (fst r <> [] -> declares_fn (hd "" (fst r)) = true).
Proof.
  induction rest as [|l rest IH]; intros Hpool idx sl d f Hall Hf Hhd.
  - simpl. auto.
  - assert (Hpool' : forall l0, In l0 rest -> In (strip l0) pool)
      by (intros; apply Hpool; now right).
    specialize (IH Hpool').
    cbn [extract_loop]. cbv zeta.
    destruct ((strip l =? "") || startswith "//" (strip l)) eqn:Esk.
    { now apply IH. }
    destruct (f || (contains "pub" (strip l) && contains "extern" (strip l)
                    && contains "fn " (strip l))) eqn:Ef.
    + assert (Hall' : Forall (fun line => skipped line = false /\ In line pool)
                        (sl ++ [strip l])).
      { apply Forall_app. split; [exact Hall|].
        constructor; [|constructor]. split; [exact Esk|].
        apply Hpool. now left. }
      assert (Hne : (sl ++ [strip l])%list <> [])
        by (intros E; apply app_eq_nil in E as [_ E]; discriminate).
      assert (Hhd' : (sl ++ [strip l])%list <> [] ->
                     declares_fn (hd "" (sl ++ [strip l])%list) = true).
      { intros _. destruct sl as [|x sl]; simpl.
        - destruct f; [exfalso; now apply Hf|]. exact Ef.
        - apply Hhd. discriminate. }
      repeat match goal with
        | |- context [if ?b then _ else _] =>
            lazymatch b with
            | context [extract_loop] => fail
            | _ => destruct b eqn:?
            end
        end; try (simpl; split; assumption).
      apply IH; auto.
    + apply IH; auto. intros E. discriminate.
Qed.

(** X12: every line joined into the signature is the stripped form of a
    line between the start index and the returned index that is neither
    blank nor a comment, and the first of them holds the three tokens
    [pub], [extern] and [fn ]. *)
Theorem extract_collects_declaration_lines (lines : list string)
    (start_idx : nat) :
  let r := extract_sig_lines lines start_idx in
  Forall (fun line =>
            skipped line = false
            /\ In line (map strip (firstn (S (snd r - start_idx))
                                     (skipn start_idx lines))))
    (fst r)
  /\ (fst r <> [] -> declares_fn (hd "" (fst r)) = true).
Proof.
  cbv zeta. unfold extract_sig_lines.
  pose proof (extract_loop_consumed (skipn start_idx lines) start_idx [] 0%Z false)
    as Hc.
  cbv zeta in Hc.
  set (r := extract_loop (skipn start_idx lines) start_idx [] 0%Z false) in *.
  set (rest := firstn (S (snd r - start_idx)) (skipn start_idx lines)) in *.
  assert (H : let r' := extract_loop rest start_idx [] 0%Z false in
              Forall (fun line => skipped line = false
                                  /\ In line (map strip rest)) (fst r')
              /\ (fst r' <> [] -> declares_fn (hd "" (fst r')) = true)).
  { apply extract_loop_collects.
    - intros l. apply in_map.
    - constructor.
    - discriminate.
    - intros H. now contradiction H. }
  cbv zeta in H. rewrite Hc in H. exact H.
Qed.

(** ** The functions of a file *)

Lemma ffi_loop_no_marker (lines : list string) :
  Forall (fun l => is_marker (strip l) = false) lines ->
  forall fuel i fs, ffi_loop fuel lines i fs = fs.
Proof.
  intros H. induction fuel as [|fuel IH]; intros i fs; [reflexivity|].
  simpl. destruct (nth_error lines i) as [l|] eqn:E; [|reflexivity].
  rewrite Forall_forall in H. rewrite (H l) by (eapply nth_error_In, E).
  apply IH.
Qed.

(** X18: a file without a line that is exactly one of the two export
    markers yields no function, whatever else it declares. *)
Theorem no_marker_no_function (lines : list string) :
  Forall (fun l => is_marker (strip l) = false) lines ->
  extract_ffi_functions lines = [].
Proof. intros H. now apply ffi_loop_no_marker. Qed.

Lemma no_marker_no_function_witness :
  extract_ffi_functions
    ["#[no_mangle] // exported"; "pub extern fn fz_keep(p: i32) -> i32 {"]
  = [].
Proof.
  apply (no_marker_no_function
           ["#[no_mangle] // exported"; "pub extern fn fz_keep(p: i32) -> i32 {"]).
  repeat constructor.
Defined.

Lemma skipn_nth_error {A : Type} (l : list A) (i : nat) (x : A) :
  nth_error l i = Some x -> skipn i l = x :: skipn (S i) l.
Proof.
  revert l. induction i as [|i IH]; intros [|y l] H; try discriminate.
  - now injection H as ->.
  - simpl in H. now apply IH.
Qed.

Lemma count_markers_skipn (lines : list string) (i j : nat) :
  i <= j -> count_markers (skipn j lines) <= count_markers (skipn i lines).
Proof.
  intros H. replace j with ((j - i) + i) by lia. rewrite <- skipn_skipn.
  generalize (skipn i lines) as l. generalize (j - i) as k. clear.
  unfold count_markers.
  induction k as [|k IH]; intros [|x l]; simpl; try lia.
  specialize (IH l). destruct (is_marker (strip x)); simpl; lia.
Qed.

Lemma count_markers_cons (l : string) (lines : list string) :
  count_markers (l :: lines)
  = (if is_marker (strip l) then 1 else 0) + count_markers lines.
Proof. unfold count_markers. simpl. now destruct (is_marker (strip l)). Qed.

Lemma ffi_loop_bound (fuel : nat) :
  forall lines i fs,
    List.length (ffi_loop fuel lines i fs)
    <= List.length fs + count_markers (skipn i lines).
Proof.
  induction fuel as [|fuel IH]; intros lines i fs; simpl; [lia|].
  destruct (nth_error lines i) as [l|] eqn:E; [|lia].
  rewrite (skipn_nth_error _ _ _ E), count_markers_cons.
  destruct (is_marker (strip l)).
  - pose proof (extract_index_ge lines (i + 1)) as Hge.
    destruct (extract_function_signature lines (i + 1)) as [sig next].
    simpl in Hge.
    pose proof (count_markers_skipn lines (S i) (next + 1) ltac:(lia)) as Hm.
    match goal with
    | |- List.length (ffi_loop _ _ _ ?fs') <= _ =>
        specialize (IH lines (next + 1) fs');
        assert (Hl : List.length fs' <= S (List.length fs))
    end.
    { destruct (sig =? ""); [lia|].
      destruct (parse_rust_ffi_function sig); [|lia].
      rewrite List.length_app. simpl. lia. }
    lia.
  - replace (i + 1) with (S i) by lia. apply IH.
Qed.

(** X19: a file yields at most one function for each of its marker
    lines. *)
Theorem functions_bounded_by_markers (lines : list string) :
  List.length (extract_ffi_functions lines) <= count_markers lines.
Proof. apply (ffi_loop_bound (List.length lines) lines 0 []). Qed.

(** ** The parser: what it drops *)

Lemma contains_tail (n : string) (c : ascii) (s : string) :
  contains n (String c s) = false -> contains n s = false.
Proof. rewrite contains_cons. intros H. now apply orb_false_elim in H. Qed.

Lemma contains_head (n : string) (s : string) :
  contains n s = false -> prefix n s = false.
Proof.
  destruct s as [|c s]; simpl; intros H; now apply orb_false_elim in H.
Qed.

Lemma drop_while_suffix (p : ascii -> bool) (s : string) :
  exists w, s = w ++ drop_while p s.
Proof.
  induction s as [|c s [w IH]]; [now exists ""|].
  simpl. destruct (p c).
  - exists (String c w). simpl. now rewrite <- IH.
  - now exists "".
Qed.

Lemma contains_drop_while (n : string) (p : ascii -> bool) (s : string) :
  contains n s = false -> contains n (drop_while p s) = false.
Proof.
  intros H. destruct (contains n (drop_while p s)) eqn:E; [|reflexivity].
  destruct (drop_while_suffix p s) as [w Hw].
  apply (contains_app_r _ w) in E. rewrite <- Hw in E. congruence.
Qed.

Lemma search_fn_name_none (s : string) :
  contains "fn" s = false -> Re.search_fn_name s = None.
Proof.
  induction s as [|c s IH]; intros H; [reflexivity|].
  cbn [Re.search_fn_name]. unfold Re.fn_name_at.
  rewrite (contains_head _ _ H). apply IH. eapply contains_tail, H.
Qed.

Lemma params_tail_none (s : string) :
  contains "->" s = false -> contains "{" s = false -> contains ";" s = false ->
  Re.params_tail s = false.
Proof.
  intros H1 H2 H3. unfold Re.params_tail.
  now rewrite !contains_head by now apply contains_drop_while.
Qed.

Lemma search_params_none (s : string) :
  contains "->" s = false -> contains "{" s = false -> contains ";" s = false ->
  Re.search_params s = None.
Proof.
  assert (Hg : forall s, contains "->" s = false -> contains "{" s = false ->
                         contains ";" s = false -> Re.params_group s = None).
  { clear. induction s as [|c s IH]; intros H1 H2 H3; [reflexivity|].
    cbn [Re.params_group].
    rewrite params_tail_none, andb_false_r by (eapply contains_tail; eassumption).
    rewrite IH by (eapply contains_tail; eassumption). reflexivity. }
  induction s as [|c s IH]; intros H1 H2 H3; [reflexivity|].
  cbn [Re.search_params].
  rewrite Hg by (eapply contains_tail; eassumption).
  rewrite IH by (eapply contains_tail; eassumption).
  now destruct (Ascii.eqb c "(").
Qed.

(** X13: a signature is dropped when it holds no function keyword, and
    also when it holds neither an arrow nor a brace nor a semicolon, with
    or without parentheses. *)
Theorem parse_drops_unterminated (s : string) :
  contains "fn" s = false
  \/ (contains "->" s = false /\ contains "{" s = false
      /\ contains ";" s = false) ->
  parse_rust_ffi_function s = None.
Proof.
  intros [H|(H1 & H2 & H3)]; unfold parse_rust_ffi_function.
  - now rewrite search_fn_name_none.
  - rewrite search_params_none by assumption.
    now destruct (Re.search_fn_name s).
Qed.

Lemma parse_drops_unterminated_witness :
  parse_rust_ffi_function "pub extern fn fz_flush(out: *mut fz_output)" = None.
Proof.
  apply (parse_drops_unterminated "pub extern fn fz_flush(out: *mut fz_output)").
  right. repeat split; reflexivity.
Defined.

(** ** The parser: what it returns *)

Lemma take_while_all (p : ascii -> bool) (s : string) :
  all_chars p (take_while p s) = true.
Proof.
  induction s as [|c s IH]; [reflexivity|]. simpl.
  destruct (p c) eqn:E; [|reflexivity]. simpl. now rewrite E.
Qed.

Lemma search_fn_name_word (s w : string) :
  Re.search_fn_name s = Some w -> w <> "" /\ all_chars isword w = true.
Proof.
  induction s as [|c s IH]; cbn [Re.search_fn_name].
  - unfold Re.fn_name_at. simpl. discriminate.
  - destruct (Re.fn_name_at (String c s)) as [w'|] eqn:E; [|exact IH].
    intros [= <-]. unfold Re.fn_name_at in E.
    destruct (prefix "fn" (String c s)); [|discriminate].
    destruct (_ <? _)%nat; [|discriminate].
    destruct (String.eqb_spec
                (take_while isword (drop_while isspace (drop 2 (String c s)))) "")
      as [|Hne]; [discriminate|].
    injection E as <-. split; [exact Hne | apply take_while_all].
Qed.

Lemma app_nonempty_l (a b : string) : a <> "" -> a ++ b <> "".
Proof. destruct a; simpl; congruence. Qed.

Lemma join_nonempty (sep x : string) (l : list string) :
  x <> "" -> join sep (x :: l) <> "".
Proof.
  intros H. unfold join. simpl.
  destruct l; [exact H | now apply app_nonempty_l].
Qed.

(** X14: a descriptor the parser returns has a name that is a non-empty
    run of word characters, a parameter text that is not empty ([void]
    when no parameter was kept), and a declaration put together from its
    return type, name and parameter text. *)
Theorem parsed_descriptor_shape (s : string) (f : FuncInfo) :
  parse_rust_ffi_function s = Some f ->
  name f <> "" /\ all_chars isword (name f) = true
  /\ params f <> ""
  /\ declaration f
     = return_ f ++ " " ++ name f ++ "(" ++ params f ++ ");".
Proof.
  unfold parse_rust_ffi_function.
  destruct (Re.search_fn_name s) as [w|] eqn:Ew; [|discriminate].
  destruct (Re.search_params s) as [g|]; [|discriminate].
  intros [= <-]. simpl.
  apply search_fn_name_word in Ew as [Hw1 Hw2].
  repeat split; auto.
  unfold c_params_of.
  destruct (c_param_pairs (strip g)) as [|[t n] l]; [discriminate|].
  cbn [map]. apply join_nonempty. simpl fst.
  apply app_nonempty_r. discriminate.
Qed.

Lemma parsed_descriptor_shape_witness :
  parse_rust_ffi_function "pub extern fn fz_n(ctx ) -> i32 {"
  = Some {| name := "fz_n"; params := "void"; return_ := "int32_t";
            declaration := "int32_t fz_n(void);" |}
  /\ params {| name := "fz_n"; params := "void"; return_ := "int32_t";
               declaration := "int32_t fz_n(void);" |} <> "".
Proof.
  split; [reflexivity|].
  apply (parsed_descriptor_shape "pub extern fn fz_n(ctx ) -> i32 {").
  reflexivity.
Defined.

(** ** The parser: parameters *)

Lemma app_empty_right (a : string) : a ++ "" = a.
Proof. induction a as [|c a IH]; simpl; [reflexivity | now rewrite IH]. Qed.

Lemma split_params_loop_plain (a : string) :
  all_chars plain_char a = true ->
  forall rest params cur d,
    split_params_loop (a ++ rest) params cur d
    = split_params_loop rest params (cur ++ a) d.
Proof.
  induction a as [|c a IH]; intros H rest params cur d.
  - simpl. now rewrite app_empty_right.
  - simpl in H. apply andb_prop in H as [Hc Ha].
    unfold plain_char in Hc. apply negb_true_iff in Hc.
    apply orb_false_elim in Hc as [Hc Hcm].
    apply orb_false_elim in Hc as [Ho Hcl].
    simpl append. cbn [split_params_loop]. rewrite Ho, Hcl, Hcm. simpl andb.
    cbv iota. rewrite IH by assumption. f_equal.
    rewrite app_assoc_str. reflexivity.
Qed.

Lemma split_params_loop_joined (ps : list string) :
  ps <> [] -> Forall (fun x => all_chars plain_char x = true) ps ->
  forall params,
    split_params_loop (String.concat "," ps ++ ",") params "" 0%Z
    = (params ++ map strip ps)%list.
Proof.
  induction ps as [|x ps IH]; intros Hne H params; [contradiction|].
  inversion H as [|? ? Hx Hps]; subst.
  destruct ps as [|y ps].
  - simpl String.concat. rewrite split_params_loop_plain by assumption.
    reflexivity.
  - change (String.concat "," (x :: y :: ps))
      with (x ++ "," ++ String.concat "," (y :: ps)).
    rewrite app_assoc_str, split_params_loop_plain by assumption.
    simpl append at 1. cbn [split_params_loop]. simpl.
    rewrite IH by (auto; discriminate).
    now rewrite <- app_assoc.
Qed.

(** X15: parameters free of brackets and commas, joined by commas, are
    split again into the same parameters, each stripped. *)
Theorem split_params_of_joined (ps : list string) :
  ps <> [] -> Forall (fun x => all_chars plain_char x = true) ps ->
  split_params (String.concat "," ps) = map strip ps.
Proof.
  intros Hne H. unfold split_params.
  now rewrite split_params_loop_joined.
Qed.

Lemma split_params_of_joined_witness :
  split_params (String.concat "," ["ctx: i32"; " path: *const c_char "])
  = map strip ["ctx: i32"; " path: *const c_char "].
Proof.
  apply (split_params_of_joined ["ctx: i32"; " path: *const c_char "]).
  - discriminate.
  - repeat constructor.
Defined.

Lemma split_colon_app (n t : string) :
  has_char ":" n = false -> split_colon (n ++ ":" ++ t) = Some (n, t).
Proof.
  induction n as [|c n IH]; intros H; [reflexivity|].
  simpl in H. apply orb_false_elim in H as [Hc Hn].
  simpl. rewrite Hc. simpl in IH. now rewrite IH.
Qed.

Lemma split_colon_none (p : string) :
  has_char ":" p = false -> split_colon p = None.
Proof.
  induction p as [|c p IH]; intros H; [reflexivity|].
  simpl in H. apply orb_false_elim in H as [Hc Hp].
  simpl. now rewrite Hc, IH.
Qed.

(** X16: a parameter is cut at its first colon: the text in front, free
    of colons, is the name, and all that follows, colons included, is the
    type handed to the conversion; a parameter without colon is
    skipped. *)
Theorem convert_param_at_first_colon (n : string) :
  has_char ":" n = false ->
  convert_param n = None
  /\ forall t,
       convert_param (n ++ ":" ++ t)
       = Some (convert_rust_type_to_c t, strip n).
Proof.
  intros H. split.
  - unfold convert_param. rewrite split_colon_none by assumption.
    now destruct (n =? "").
  - intros t. unfold convert_param.
    destruct (String.eqb_spec (n ++ ":" ++ t) "") as [E|_].
    + destruct n; discriminate.
    + now rewrite split_colon_app, convert_strip.
Qed.

Lemma convert_param_at_first_colon_witness :
  has_char ":" " name " = false
  /\ (convert_param " name " = None
      /\ forall t,
           convert_param (" name " ++ ":" ++ t)
           = Some (convert_rust_type_to_c t, strip " name ")).
Proof.
  split; [reflexivity|].
  apply (convert_param_at_first_colon " name "). reflexivity.
Defined.

(** ** The parser: a signature on one line *)

Lemma has_char_app (c : ascii) (a b : string) :
  has_char c (a ++ b) = has_char c a || has_char c b.
Proof.
  induction a as [|x a IH]; simpl; [reflexivity|].
  now rewrite IH, orb_assoc.
Qed.

Lemma all_chars_has_char (p : ascii -> bool) (c : ascii) (s : string) :
  all_chars p s = true -> p c = false -> has_char c s = false.
Proof.
  intros H Hc. induction s as [|x s IH]; [reflexivity|].
  simpl in *. apply andb_prop in H as [Hx Hs]. rewrite (IH Hs), orb_false_r.
  destruct (Ascii.eqb_spec x c) as [->|]; [congruence | reflexivity].
Qed.

Lemma take_while_app (p : ascii -> bool) (a : string) (c : ascii) (b : string) :
  all_chars p a = true -> p c = false ->
  take_while p (a ++ String c b) = a.
Proof.
  intros H Hc. induction a as [|x a IH]; simpl in *.
  - now rewrite Hc.
  - apply andb_prop in H as [Hx Ha]. now rewrite Hx, IH.
Qed.

Lemma search_fn_name_skip (a s : string) :
  has_char "f" a = false ->
  Re.search_fn_name (a ++ s) = Re.search_fn_name s.
Proof.
  induction a as [|c a IH]; intros H; [reflexivity|].
  simpl in H. apply orb_false_elim in H as [Hc Ha].
  simpl append. cbn [Re.search_fn_name]. unfold Re.fn_name_at at 1.
  rewrite prefix_cons, (Ascii.eqb_sym "f" c), Hc. simpl. now apply IH.
Qed.

Lemma search_fn_name_here (w : string) (c : ascii) (r : string) :
  w <> "" -> all_chars isword w = true -> isword c = false ->
  Re.search_fn_name ("fn " ++ w ++ String c r) = Some w.
Proof.
  intros Hne Hw Hc.
  destruct w as [|x w]; [contradiction|].
  assert (Hx : isspace x = false).
  { simpl in Hw. apply andb_prop in Hw as [Hx _].
    pose proof (isspace_isword_disjoint x) as D. rewrite Hx, andb_true_r in D.
    exact D. }
  cbn [Re.search_fn_name append]. unfold Re.fn_name_at.
  change (prefix "fn" (String "f" (String "n" (String " " (String x (w ++ String c r))))))
    with true.
  cbv iota. cbn [drop drop_while]. cbv zeta.
  change (isspace " ") with true. cbv iota. cbn [drop_while]. rewrite Hx.
  replace (_ <? _)%nat with true by (symmetry; apply Nat.ltb_lt; simpl; lia).
  change (String x (w ++ String c r)) with (String x w ++ String c r).
  rewrite take_while_app by assumption. reflexivity.
Qed.

Lemma search_params_skip (a s : string) :
  has_char "(" a = false ->
  Re.search_params (a ++ s) = Re.search_params s.
Proof.
  induction a as [|c a IH]; intros H; [reflexivity|].
  simpl in H. apply orb_false_elim in H as [Hc Ha].
  simpl append. cbn [Re.search_params]. rewrite Hc. now apply IH.
Qed.

Lemma params_group_app (a tail : string) :
  has_char ")" a = false -> Re.params_tail tail = true ->
  Re.params_group (a ++ ")" ++ tail) = Some a.
Proof.
  intros H Ht. induction a as [|c a IH].
  - simpl. now rewrite Ht.
  - simpl in H. apply orb_false_elim in H as [Hc Ha].
    simpl append. cbn [Re.params_group]. rewrite Hc. simpl andb. cbv iota.
    simpl append in IH. now rewrite IH.
Qed.

Lemma search_ret_skip (a s : string) :
  has_char "-" a = false ->
  Re.search_ret (a ++ s) = Re.search_ret s.
Proof.
  induction a as [|c a IH]; intros H; [reflexivity|].
  simpl in H. apply orb_false_elim in H as [Hc Ha].
  simpl append. cbn [Re.search_ret].
  rewrite prefix_cons, (Ascii.eqb_sym "-" c), Hc. simpl. now apply IH.
Qed.

Lemma ret_group_spec (s : string) :
  take_while Re.not_brace_semi (drop_while isspace s) <> "" ->
  Re.ret_group s
  = Some (take_while Re.not_brace_semi (drop_while isspace s)).
Proof.
  induction s as [|c s IH]; intros H; [now contradiction H|].
  cbn [Re.ret_group]. cbn [drop_while] in *.
  destruct (isspace c).
  - now rewrite IH.
  - destruct (String.eqb_spec (take_while Re.not_brace_semi (String c s)) "");
      [contradiction | reflexivity].
Qed.

Lemma lstrip_drop_while (s : string) : lstrip s = drop_while isspace s.
Proof.
  induction s as [|c s IH]; [reflexivity|]. simpl. now rewrite IH.
Qed.

Lemma drop_while_app (a b : string) :
  lstrip a <> "" -> drop_while isspace (a ++ b) = lstrip a ++ b.
Proof.
  induction a as [|c a IH]; intros H; [now contradiction H|].
  simpl in *. destruct (isspace c); [now apply IH | reflexivity].
Qed.

Lemma all_chars_lstrip (p : ascii -> bool) (s : string) :
  all_chars p s = true -> all_chars p (lstrip s) = true.
Proof.
  induction s as [|c s IH]; [reflexivity|]. simpl. intros H.
  apply andb_prop in H as [Hc Hs].
  destruct (isspace c); [now apply IH|]. simpl. now rewrite Hc, Hs.
Qed.

(** The return type found behind the arrow of a signature that ends in
    [ {]. *)
Lemma search_ret_here (T : string) :
  strip T <> "" -> all_chars Re.not_brace_semi T = true ->
  Re.search_ret ("-> " ++ T ++ " {") = Some (lstrip T ++ " ").
Proof.
  intros Hs Hb.
  assert (Hl : lstrip T <> "").
  { intros E. apply Hs. unfold strip. now rewrite E. }
  cbn [Re.search_ret append].
  change (prefix "->" (String "-" (String ">" (String " " (T ++ " {")))))
    with true.
  cbv iota. cbn [drop].
  assert (Hg : take_while Re.not_brace_semi
                 (drop_while isspace (String " " (T ++ " {")))
               = lstrip T ++ " ").
  { cbn [drop_while]. change (isspace " ") with true. cbv iota.
    rewrite drop_while_app by assumption.
    change (" {") with (" " ++ String "{" "").
    rewrite <- app_assoc_str.
    apply take_while_app; [|reflexivity].
    clear -Hb. apply all_chars_lstrip in Hb.
    induction (lstrip T) as [|c s IH]; [reflexivity|].
    simpl in *. apply andb_prop in Hb as [Hc Hs]. now rewrite Hc, IH. }
  rewrite ret_group_spec; rewrite Hg; [reflexivity|].
  now apply app_nonempty_l.
Qed.

Lemma strip_lstrip_space (T : string) :
  strip T <> "" -> strip (lstrip T ++ " ") = strip T.
Proof.
  intros Hs.
  assert (Hl : lstrip T <> "").
  { intros E. apply Hs. unfold strip. now rewrite E. }
  unfold strip at 1. rewrite lstrip_clean.
  - now rewrite rstrip_app_blank.
  - pose proof (lstrip_starts_clean T) as H.
    destruct (lstrip T); [contradiction | exact H].
Qed.

(** X17: an exported signature on one line,
    [pub extern "C" fn NAME(PARAMS) -> TYPE {], whose name is a run of
    word characters, whose parameter text holds neither a closing
    parenthesis nor a minus sign and whose return type is not blank and
    holds neither a brace nor a semicolon, is parsed into the descriptor
    of that name, with the converted parameters of PARAMS ([void] if none
    is kept) and the conversion of TYPE. *)
Theorem parse_one_line_signature (fn_name ps T : string) :
  fn_name <> "" -> all_chars isword fn_name = true ->
  has_char ")" ps = false -> has_char "-" ps = false ->
  strip T <> "" -> all_chars Re.not_brace_semi T = true ->
  let c_params_str :=
    match c_params_of (strip ps) with
    | [] => "void"
    | l => join ", " l
    end in
  parse_rust_ffi_function
    (export_head ++ fn_name ++ "(" ++ ps ++ ") -> " ++ T ++ " {")
  = Some {| name := fn_name;
            params := c_params_str;
            return_ := convert_rust_type_to_c T;
            declaration :=
              convert_rust_type_to_c T ++ " " ++ fn_name
              ++ "(" ++ c_params_str ++ ");" |}.
Proof.
  intros Hne Hw Hp Hm Hs Hb. cbv zeta.
  set (sig := export_head ++ fn_name ++ "(" ++ ps ++ ") -> " ++ T ++ " {").
  assert (Hname : Re.search_fn_name sig = Some fn_name).
  { unfold sig.
    change export_head
      with (("pub extern " ++ dq ++ "C" ++ dq ++ " ") ++ "fn ").
    rewrite app_assoc_str, search_fn_name_skip by reflexivity.
    change ("(" ++ ps ++ ") -> " ++ T ++ " {")
      with (String "(" (ps ++ ") -> " ++ T ++ " {")).
    apply search_fn_name_here; auto. }
  assert (Hparams : Re.search_params sig = Some ps).
  { unfold sig. rewrite <- app_assoc_str, search_params_skip.
    - change ("(" ++ ps ++ ") -> " ++ T ++ " {")
        with (String "(" (ps ++ ")" ++ " -> " ++ T ++ " {")).
      cbn [Re.search_params]. rewrite Ascii.eqb_refl.
      now rewrite params_group_app.
    - rewrite has_char_app, (all_chars_has_char isword "(" fn_name) by auto.
      reflexivity. }
  assert (Hret : Re.search_ret sig = Some (lstrip T ++ " ")).
  { unfold sig.
    replace (export_head ++ fn_name ++ "(" ++ ps ++ ") -> " ++ T ++ " {")
      with ((export_head ++ fn_name ++ "(" ++ ps ++ ") ")
            ++ "-> " ++ T ++ " {").
    - rewrite search_ret_skip; [now apply search_ret_here|].
      rewrite !has_char_app, Hm,
        (all_chars_has_char isword "-" fn_name) by auto.
      reflexivity.
    - rewrite !app_assoc_str. reflexivity. }
  unfold parse_rust_ffi_function. rewrite Hname, Hparams, Hret.
  rewrite strip_lstrip_space, convert_strip by assumption.
  destruct (c_params_of (strip ps)); reflexivity.
Qed.

Lemma parse_one_line_signature_witness :
  parse_rust_ffi_function
    (export_head ++ "fz_new_buffer" ++ "(" ++ "ctx: i32, cap: usize"
     ++ ") -> " ++ "*mut fz_buffer" ++ " {")
  = Some {| name := "fz_new_buffer";
            params := "int32_t ctx, size_t cap";
            return_ := "fz_buffer *";
            declaration := "fz_buffer * fz_new_buffer(int32_t ctx, size_t cap);" |}.
Proof.
  apply (parse_one_line_signature "fz_new_buffer" "ctx: i32, cap: usize"
           "*mut fz_buffer"); try reflexivity; vm_compute; discriminate.
Defined.

(** ** The accumulation of modules in [main] *)

Lemma fold_update_untouched {V : Type} (us : list (option (string * V)))
    (k : string) :
  ~ In k (update_keys us) ->
  forall d, dict_find (fold_left dict_update us d) k = dict_find d k.
Proof.
  induction us as [|[[k0 v0]|] us IH]; simpl; intros H d; auto.
  rewrite IH by intuition. rewrite dict_find_set.
  destruct (String.eqb_spec k k0) as [E|]; [|reflexivity].
  exfalso. apply H. left. now rewrite E.
Qed.

Lemma fold_update_found {V : Type} (us : list (option (string * V)))
    (k : string) (v : V) :
  NoDup (update_keys us) -> In (Some (k, v)) us ->
  forall d, dict_find (fold_left dict_update us d) k = Some v.
Proof.
  induction us as [|o us IH]; intros Hn Hin d; [contradiction|].
  unfold update_keys in Hn. simpl in Hn. destruct Hin as [->|Hin].
  - simpl in *. inversion Hn as [|? ? Hk _]; subst.
    rewrite fold_update_untouched by exact Hk.
    now rewrite dict_find_set, String.eqb_refl.
  - simpl. apply IH; [|exact Hin]. now apply NoDup_app_remove_l in Hn.
Qed.

Lemma dict_find_some_in {V : Type} (d : list (string * V)) (k : string) (v : V) :
  dict_find d k = Some v -> In (k, v) d.
Proof.
  induction d as [|[k0 v0] d IH]; simpl; [discriminate|].
  destruct (String.eqb_spec k k0) as [->|].
  - intros [= ->]. now left.
  - intros H. right. auto.
Qed.

Lemma dict_find_of_in {V : Type} (d : list (string * V)) (k : string) (v : V) :
  NoDup (map fst d) -> In (k, v) d -> dict_find d k = Some v.
Proof.
  induction d as [|[k0 v0] d IH]; simpl; intros Hn H; [contradiction|].
  inversion Hn as [|? ? Hk0 Hd]; subst.
  destruct H as [[= -> ->]|H].
  - now rewrite String.eqb_refl.
  - destruct (String.eqb_spec k k0) as [->|]; [|auto].
    exfalso. apply Hk0. change k0 with (fst (k0, v)). now apply in_map.
Qed.

(** X20: a source file named [mod] or [safe_helpers], and a source file
    without exported functions, leave no trace in the output, wherever
    they stand in the order of discovery. *)
Theorem ignored_files_leave_no_trace (upper capitalize : string -> string)
    (before after : list (string * list string))
    (module : string) (lines : list string)
    (sub_dirs : list (string * list (list string))) :
  mem module ["mod"; "safe_helpers"] = true
  \/ extract_ffi_functions lines = [] ->
  main upper capitalize (before ++ (module, lines) :: after) sub_dirs
  = main upper capitalize (before ++ after) sub_dirs.
Proof.
  intros H. unfold main.
  assert (E : scan_files (before ++ (module, lines) :: after) []
              = scan_files (before ++ after) []).
  { assert (En : file_entry (module, lines) = None).
    { unfold file_entry. destruct H as [H|H]; rewrite H; [reflexivity|].
      now destruct (mem module ["mod"; "safe_helpers"]). }
    rewrite !scan_files_fold, !map_app, !fold_left_app.
    cbn [map fold_left]. now rewrite En. }
  now rewrite E.
Qed.

Lemma ignored_files_leave_no_trace_witness :
  main (fun s => s) (fun s => s)
    ([("buffer", ["#[no_mangle]"; "pub extern fn fz_drop(b: i32) {"])]
     ++ ("safe_helpers", ["#[no_mangle]"; "pub extern fn helper() {"]) :: [])
    []
  = main (fun s => s) (fun s => s)
      ([("buffer", ["#[no_mangle]"; "pub extern fn fz_drop(b: i32) {"])] ++ [])
      [].
Proof.
  apply (ignored_files_leave_no_trace (fun s => s) (fun s => s)
           [("buffer", ["#[no_mangle]"; "pub extern fn fz_drop(b: i32) {"])]
           [] "safe_helpers" ["#[no_mangle]"; "pub extern fn helper() {"] []).
  left. reflexivity.
Defined.

(** X21: a subdirectory with exported functions takes the whole module of
    its name: the header written for it declares the functions of the
    directory, and those of a source file of the same name are not in the
    dict. *)
Theorem directory_overrides_file (upper capitalize : string -> string)
    (top_files : list (string * list string))
    (sub_dirs : list (string * list (list string)))
    (module : string) (files : list (list string)) :
  In (module, files) sub_dirs -> NoDup (map fst sub_dirs) ->
  flat_map extract_ffi_functions files <> [] ->
  In (module_write upper capitalize "include/mupdf"
        (module, flat_map extract_ffi_functions files))
     (main upper capitalize top_files sub_dirs)
  /\ forall functions,
       In (module, functions) (all_functions_of top_files sub_dirs) ->
       functions = flat_map extract_ffi_functions files.
Proof.
  intros Hin Hn Hne.
  assert (Hf : dict_find (all_functions_of top_files sub_dirs) module
               = Some (flat_map extract_ffi_functions files)).
  { unfold all_functions_of. rewrite scan_dirs_fold.
    apply fold_update_found.
    - apply update_keys_nodup; [apply dir_entry_key | exact Hn].
    - apply in_map_iff. exists (module, files). split; [|exact Hin].
      unfold dir_entry.
      destruct (flat_map extract_ffi_functions files); [contradiction | reflexivity]. }
  split.
  - unfold main. apply in_or_app. left.
    apply in_map. now apply dict_find_some_in.
  - intros functions H.
    apply dict_find_of_in in H; [|apply all_functions_nodup]. congruence.
Qed.

Lemma directory_overrides_file_witness :
  In ("pdf_object", snd (hd ("", []) ffi_dirs)) ffi_dirs
  /\ In (module_write (fun s => s) (fun s => s) "include/mupdf"
           ("pdf_object",
            flat_map extract_ffi_functions (snd (hd ("", []) ffi_dirs))))
        (main (fun s => s) (fun s => s)
           [("pdf_object", ["#[no_mangle]"; "pub extern fn pdf_old() {"])]
           ffi_dirs).
Proof.
  split; [left; reflexivity|].
  apply (directory_overrides_file (fun s => s) (fun s => s)
           [("pdf_object", ["#[no_mangle]"; "pub extern fn pdf_old() {"])]
           ffi_dirs "pdf_object" (snd (hd ("", []) ffi_dirs))).
  - left. reflexivity.
  - repeat constructor. simpl. intuition.
  - vm_compute. discriminate.
Defined.

Lemma dict_set_all {V : Type} (P : V -> Prop) (d : list (string * V))
    (k : string) (v : V) :
  Forall (fun e => P (snd e)) d -> P v ->
  Forall (fun e => P (snd e)) (dict_set d k v).
Proof.
  intros Hd Hv. induction d as [|[k0 v0] d IH]; simpl.
  - now constructor.
  - inversion Hd; subst. destruct (k =? k0); constructor; auto.
Qed.

Lemma fold_update_all {V : Type} (P : V -> Prop)
    (us : list (option (string * V))) :
  (forall k v, In (Some (k, v)) us -> P v) ->
  forall d, Forall (fun e => P (snd e)) d ->
            Forall (fun e => P (snd e)) (fold_left dict_update us d).
Proof.
  induction us as [|[[k v]|] us IH]; simpl; intros H d Hd.
  - exact Hd.
  - apply IH; [intros k0 v0 Hin; apply (H k0); now right|].
    apply dict_set_all; [exact Hd|]. apply (H k). now left.
  - apply IH; [intros k0 v0 Hin; apply (H k0); now right | exact Hd].
Qed.

(** X25: no module of the dict is empty, so [main] writes no module
    header without a declaration. *)
Theorem no_module_without_function (top_files : list (string * list string))
    (sub_dirs : list (string * list (list string)))
    (module : string) (functions : list FuncInfo) :
  In (module, functions) (all_functions_of top_files sub_dirs) ->
  functions <> [].
Proof.
  intros H.
  assert (Hall : Forall (fun e : string * list FuncInfo => snd e <> [])
                   (all_functions_of top_files sub_dirs)).
  { unfold all_functions_of. rewrite scan_dirs_fold, scan_files_fold.
    apply (fold_update_all (fun v : list FuncInfo => v <> []));
      [|apply (fold_update_all (fun v : list FuncInfo => v <> []));
        [|constructor]].
    - intros k v Hin. apply in_map_iff in Hin as ([m fs] & E & _).
      unfold dir_entry in E.
      destruct (flat_map extract_ffi_functions fs); [discriminate|].
      injection E as _ <-. discriminate.
    - intros k v Hin. apply in_map_iff in Hin as ([m ls] & E & _).
      unfold file_entry in E.
      destruct (mem m ["mod"; "safe_helpers"]); [discriminate|].
      destruct (extract_ffi_functions ls); [discriminate|].
      injection E as _ <-. discriminate. }
  rewrite Forall_forall in Hall. apply (Hall (module, functions) H).
Qed.

Lemma no_module_without_function_witness :
  extract_ffi_functions ["#[no_mangle]"; "pub extern fn fz_drop(b: i32) {"]
  <> [].
Proof.
  apply (no_module_without_function ffi_files ffi_dirs "buffer").
  vm_compute. left. reflexivity.
Defined.

(** ** The files written *)

Lemma module_path_in (upper capitalize : string -> string) (d : string)
    (D : list (string * list FuncInfo)) (p : string) :
  In p (map fst (map (module_write upper capitalize d) D)) ->
  exists m fs, In (m, fs) D
               /\ p = d ++ "/" ++ subdir_of m fs ++ "/" ++ m ++ ".h".
Proof.
  induction D as [|[m fs] D IH]; simpl; intros H; [contradiction|].
  destruct H as [<-|H].
  - exists m, fs. split; [now left | reflexivity].
  - destruct (IH H) as (m' & fs' & Hi & ->). exists m', fs'. auto.
Qed.

(** X22: [main] writes every path once: no module header takes the path
    of another module's header or of an umbrella header. *)
Theorem main_writes_each_path_once (upper capitalize : string -> string)
    (top_files : list (string * list string))
    (sub_dirs : list (string * list (list string))) :
  NoDup (map fst (main upper capitalize top_files sub_dirs)).
Proof.
  unfold main. rewrite map_app. apply NoDup_app.
  - apply module_paths_nodup.
    change (scan_dirs sub_dirs (scan_files top_files []))
      with (all_functions_of top_files sub_dirs).
    apply all_functions_nodup.
  - simpl. repeat constructor; simpl; intuition discriminate.
  - intros p Hp. apply module_path_in in Hp as (m & fs & _ & ->).
    simpl. intros [H|[H|[H|[]]]];
      destruct (subdir_of_cases m fs) as [E|[E|E]];
      rewrite E in H; simpl in H; discriminate.
Qed.

(** ** The umbrella headers *)

(** X23: when no module name is in both sets, the core set has no effect
    on [fitz.h]: a module is included there exactly when it is not the
    enhanced module and not in the document set. *)
Theorem core_set_is_redundant (all_modules F P : list string) :
  (forall m, mem m F = true -> mem m P = false) ->
  fitz_includes all_modules F P = fitz_includes all_modules [] P.
Proof.
  intros H. unfold fitz_includes. apply flat_map_ext. intros m.
  destruct (m =? "enhanced"); [reflexivity|].
  simpl existsb. rewrite orb_false_r.
  destruct (mem m P) eqn:Ep.
  - destruct (mem m F) eqn:Ef; [|reflexivity].
    apply H in Ef. congruence.
  - simpl. now rewrite orb_true_r.
Qed.

Lemma core_set_is_redundant_witness :
  fitz_includes ["annot"; "geometry"; "version"] fitz_modules pdf_modules
  = fitz_includes ["annot"; "geometry"; "version"] [] pdf_modules.
Proof.
  apply (core_set_is_redundant ["annot"; "geometry"; "version"]
           fitz_modules pdf_modules).
  intros m. unfold fitz_modules, pdf_modules, mem. cbn [existsb].
  repeat match goal with
    | |- context [String.eqb m ?k] =>
        destruct (String.eqb_spec m k) as [->|?]; [reflexivity|]
    end.
  discriminate.
Defined.

Lemma filter_length_permuted {A : Type} (h : A -> bool) (l l' : list A) :
  Permutation l l' ->
  List.length (filter h l) = List.length (filter h l').
Proof.
  induction 1 as [|x l l' _ IH|x y l|l l' l'' _ IH1 _ IH2]; simpl.
  - reflexivity.
  - destruct (h x); simpl; now rewrite IH.
  - destruct (h x), (h y); reflexivity.
  - congruence.
Qed.

(** X24: when no module name is in both sets and the enhanced module is
    not in the document set, every module but the enhanced one gets
    exactly one include line, in one of the two umbrella headers. *)
Theorem one_include_per_module (all_modules F P : list string) :
  (forall m, mem m F = true -> mem m P = false) ->
  mem "enhanced" P = false ->
  List.length (fitz_includes all_modules F P)
  + List.length (pdf_includes all_modules P)
  = List.length (filter (fun m => negb (m =? "enhanced")) all_modules).
Proof.
  intros HF He.
  rewrite (filter_length_permuted _ _ _ (sorted_perm _ (fun m => m) all_modules)).
  unfold fitz_includes, pdf_includes.
  induction (sorted (fun m => m) all_modules) as [|m l IH]; [reflexivity|].
  cbn [flat_map filter]. rewrite !List.length_app.
  match type of IH with
  | ?a + ?b = ?c =>
      remember a as na eqn:Ea; remember b as nb eqn:Eb;
      remember c as nc eqn:Ec
  end.
  clear Ea Eb.
  destruct (String.eqb_spec m "enhanced") as [->|Hm].
  - rewrite He. simpl. rewrite <- Ec. exact IH.
  - simpl existsb. rewrite orb_false_r. simpl negb. cbn [List.length].
    rewrite <- Ec.
    destruct (mem m P) eqn:Ep.
    + destruct (mem m F) eqn:Ef; [apply HF in Ef; congruence|].
      simpl. lia.
    + rewrite orb_true_r. simpl. lia.
Qed.

Lemma one_include_per_module_witness :
  List.length (fitz_includes ["enhanced"; "annot"; "geometry"; "version"]
                 fitz_modules pdf_modules)
  + List.length (pdf_includes ["enhanced"; "annot"; "geometry"; "version"]
                   pdf_modules)
  = List.length (filter (fun m => negb (m =? "enhanced"))
                   ["enhanced"; "annot"; "geometry"; "version"]).
Proof.
  apply (one_include_per_module ["enhanced"; "annot"; "geometry"; "version"]
           fitz_modules pdf_modules); [|reflexivity].
  intros m. unfold fitz_modules, pdf_modules, mem. cbn [existsb].
  repeat match goal with
    | |- context [String.eqb m ?k] =>
        destruct (String.eqb_spec m k) as [->|?]; [reflexivity|]
    end.
  discriminate.
Defined.

(** ** Commas inside brackets *)

Lemma split_params_loop_inside (a : string) :
  all_chars no_bracket a = true ->
  forall rest params cur d,
    d <> 0%Z ->
    split_params_loop (a ++ rest) params cur d
    = split_params_loop rest params (cur ++ a) d.
Proof.
  induction a as [|c a IH]; intros H rest params cur d Hd.
  - simpl. now rewrite app_empty_right.
  - simpl in H. apply andb_prop in H as [Hc Ha].
    unfold no_bracket in Hc. apply negb_true_iff in Hc.
    apply orb_false_elim in Hc as [Ho Hcl].
    simpl append. cbn [split_params_loop]. rewrite Ho, Hcl.
    replace (d =? 0)%Z with false by (symmetry; now apply Z.eqb_neq).
    rewrite andb_false_r, IH by assumption.
    now rewrite app_assoc_str.
Qed.

(** X26: commas between a pair of angle brackets do not split: a
    parameter made of plain text followed by bracketed text without
    further brackets stays one parameter. *)
Theorem bracketed_commas_do_not_split (n a : string) :
  all_chars plain_char n = true -> all_chars no_bracket a = true ->
  split_params (n ++ "<" ++ a ++ ">") = [strip (n ++ "<" ++ a ++ ">")].
Proof.
  intros Hn Ha. unfold split_params.
  rewrite app_assoc_str, split_params_loop_plain by assumption.
  simpl append at 1. cbn [split_params_loop]. simpl is_open. cbv iota.
  rewrite !app_assoc_str.
  rewrite split_params_loop_inside by (assumption || discriminate).
  simpl append at 1. cbn [split_params_loop]. simpl.
  now rewrite !app_assoc_str.
Qed.

Lemma bracketed_commas_do_not_split_witness :
  split_params ("cb: Option" ++ "<" ++ "A, B" ++ ">")
  = [strip ("cb: Option" ++ "<" ++ "A, B" ++ ">")].
Proof.
  apply (bracketed_commas_do_not_split "cb: Option" "A, B"); reflexivity.
Defined.
